(** * AlarmClock: a resettable, interruptible countdown timer

    A shallow embedding of [src/AlarmClock.h].  The class owns one worker
    thread that runs [AlarmClockInterruptableThread]; callers poll
    [Expired], call [Reset] and finally destroy the object.

    The file has three parts:
    - machine integers, construction and the default sleep function
      [SleepUs], as a function of what its loads of the two flags return;
    - the object and its two threads as a labelled transition system, one
      step per access to shared state (every shared field is a
      sequentially consistent [atomic], or is touched under [mMutex], so
      interleaving the accesses is the semantics of the program);
    - the properties.

    Choices of the model:
    - the accessors are single atomic loads and may be called by any
      thread at any time; [Reset] and the destructor are called by one
      thread.  [Reset] holds [mMutex] from its first statement to its
      return, so calls of it from several threads would run one after the
      other, and calling [Reset] on an object that is being destroyed is
      outside the language;
    - [condition_variable::wait] may return without a notification; this is
      the label [L_Spurious], which a schedule may or may not contain;
    - the [int] counter of [SleepUs] wraps around on overflow, which is
      what the usual targets do; the properties of [SleepUs] are stated for
      durations up to [INT_MAX], where no overflow occurs. *)

From Stdlib Require Import ZArith List Bool Lia.
Import ListNotations.
Local Open Scope Z_scope.

(** ** Machine integers

    [unsigned int] and [int] are 32 bits wide.  A value of type
    [unsigned int] is a [Z] in [0, 2^32). *)

Definition UINT_MOD : Z := 2 ^ 32.
Definition INT_MAX : Z := 2 ^ 31 - 1.

(** Conversion to [unsigned int], and [++] on one. *)
Definition to_uint (z : Z) : Z := z mod UINT_MOD.

(** Conversion to [int]; [i++] on an [int] is modelled as two's complement
    wrap-around. *)
Definition to_int (z : Z) : Z := (z + 2 ^ 31) mod UINT_MOD - 2 ^ 31.

(** ** The template parameter [Duration]

    The class names three instances: [microseconds], [milliseconds] and
    [seconds]. *)

Inductive Duration : Type :=
| microseconds
| milliseconds
| seconds.

(** Ticks of [d] in one second. *)
Definition ticks_per_second (d : Duration) : Z :=
  match d with
  | microseconds => 1000000
  | milliseconds => 1000
  | seconds => 1
  end.

(** [chrono::duration_cast]: exact rescaling, truncated towards zero. *)
Definition duration_cast (from to : Duration) (count : Z) : Z :=
  Z.quot (count * ticks_per_second to) (ticks_per_second from).

(** Lines 118-120. *)
Definition ConvertToMillisecondsCount (d : Duration) (t : Z) : Z :=
  to_uint (duration_cast d milliseconds t).

(** Lines 122-124. *)
Definition ConvertToMicrosecondsCount (d : Duration) (t : Z) : Z :=
  to_uint (duration_cast d microseconds t).

(** Lines 126-128: the duration in microseconds, as a [chrono] duration
    (a signed 64-bit count, which the values below never exceed). *)
Definition ConvertToMicroseconds (d : Duration) (t : Z) : Z :=
  duration_cast d microseconds t.

(** Microseconds in one tick of [d]. *)
Definition us_per_tick (d : Duration) : Z :=
  match d with
  | microseconds => 1
  | milliseconds => 1000
  | seconds => 1000000
  end.

(** ** The default sleep function, lines 108-116

    [SleepUs] reads [mReset] and [mExit], which other threads write while it
    runs.  [obs k] is what the two loads of line 111 return after the
    [k]-th call of [sleep_for]; the second load is only made when the first
    returned [false].

    The result is the returned value together with the number of
    one-microsecond sleeps made.  The comparison of line 109 is on the tick
    count of [chrono::microseconds(t)].  [None] means the loop is still
    running when the fuel is spent. *)

Definition Observations : Type := nat -> bool * bool.

Fixpoint SleepUs_loop (fuel : nat) (obs : Observations) (t i : Z)
    (slept : nat) : option (Z * nat) :=
  match fuel with
  | O => None
  | S fuel' =>
      if i <? t then
        let slept' := S slept in
        let '(reset, exit) := obs slept' in
        if reset || exit then Some (1, slept')
        else SleepUs_loop fuel' obs t (to_int (i + 1)) slept'
      else Some (0, slept)
  end.

Definition SleepUs (fuel : nat) (obs : Observations) (t : Z)
  : option (Z * nat) :=
  SleepUs_loop fuel obs t 1 0.

(** The reading of section 4.3 of the specification, for comparison with
    [SleepUs]: one-microsecond increments up to [t] in total, a check after
    every increment. *)
Fixpoint defaultSleep_spec_loop (remaining : nat) (obs : Observations)
    (slept : nat) : Z * nat :=
  match remaining with
  | O => (0, slept)
  | S remaining' =>
      let slept' := S slept in
      let '(reset, exit) := obs slept' in
      if reset || exit then (1, slept')
      else defaultSleep_spec_loop remaining' obs slept'
  end.

Definition defaultSleep_spec (obs : Observations) (t : Z) : Z * nat :=
  defaultSleep_spec_loop (Z.to_nat t) obs 0.

(** The check made after the [k]-th sleep finds a flag up. *)
Definition sees_flag (obs : Observations) (k : nat) : bool :=
  let '(reset, exit) := obs k in reset || exit.

(** Two environments: no flag is ever raised; a flag is up throughout. *)
Definition quiet : Observations := fun _ => (false, false).
Definition exit_raised : Observations := fun _ => (false, true).

(** ** The object

    [mSleepFunction] is either the bound member [SleepUs] (line 31) or the
    injected function.  An injected function may keep state of its own: it is
    given the number of calls made before the current one, and its duration
    argument.  It cannot reach the private members of the class. *)

Inductive SleepFunction : Type :=
| BoundSleepUs
| Injected (f : nat -> Z -> Z).

Inductive Thread : Type :=
| Worker
| Owner.

Record AlarmClock : Type := mkAlarmClock {
  mExpired : Z;                   (* atomic<unsigned int>, line 132 *)
  mSleptTime : Z;                 (* atomic<unsigned int>, line 133 *)
  mExit : bool;                   (* atomic<bool>, line 134 *)
  mReset : bool;                  (* atomic<bool>, line 135 *)
  kSleepTime : Z;                 (* const int, line 136 *)
  kSleepTimeMsCount : Z;          (* const unsigned int, line 137 *)
  kSleepTimeUsCount : Z;          (* const unsigned int, line 138 *)
  mSleepFunction : SleepFunction; (* line 139 *)
  joinable : bool;                (* mTimerThread.joinable(), line 140 *)
  mMutex : option Thread          (* the holder of mMutex, line 141 *)
}.

Definition set_mExpired (v : Z) (a : AlarmClock) : AlarmClock :=
  mkAlarmClock v (mSleptTime a) (mExit a) (mReset a) (kSleepTime a)
    (kSleepTimeMsCount a) (kSleepTimeUsCount a) (mSleepFunction a)
    (joinable a) (mMutex a).

Definition set_mExit (v : bool) (a : AlarmClock) : AlarmClock :=
  mkAlarmClock (mExpired a) (mSleptTime a) v (mReset a) (kSleepTime a)
    (kSleepTimeMsCount a) (kSleepTimeUsCount a) (mSleepFunction a)
    (joinable a) (mMutex a).

Definition set_mReset (v : bool) (a : AlarmClock) : AlarmClock :=
  mkAlarmClock (mExpired a) (mSleptTime a) (mExit a) v (kSleepTime a)
    (kSleepTimeMsCount a) (kSleepTimeUsCount a) (mSleepFunction a)
    (joinable a) (mMutex a).

Definition set_joinable (v : bool) (a : AlarmClock) : AlarmClock :=
  mkAlarmClock (mExpired a) (mSleptTime a) (mExit a) (mReset a) (kSleepTime a)
    (kSleepTimeMsCount a) (kSleepTimeUsCount a) (mSleepFunction a)
    v (mMutex a).

Definition set_mMutex (v : option Thread) (a : AlarmClock) : AlarmClock :=
  mkAlarmClock (mExpired a) (mSleptTime a) (mExit a) (mReset a) (kSleepTime a)
    (kSleepTimeMsCount a) (kSleepTimeUsCount a) (mSleepFunction a)
    (joinable a) v.

(** ** The accessors, lines 41-43 and 58-68 *)

(** [return mExpired.load();] converted to [bool]. *)
Definition Expired (a : AlarmClock) : bool := negb (mExpired a =? 0).

Definition SleptTime (a : AlarmClock) : Z := mSleptTime a.

(** The two getters return [int]. *)
Definition SleepTimeUs (a : AlarmClock) : Z := to_int (kSleepTimeUsCount a).
Definition SleepTimeMs (a : AlarmClock) : Z := to_int (kSleepTimeMsCount a).

(** ** The two threads

    The worker's position in [AlarmClockInterruptableThread] (lines 72-96),
    with the body of [SleepUs] inlined when it is the sleep function. *)

Inductive WorkerPc : Type :=
| W_CallSleep                 (* line 75: about to call mSleepFunction *)
| W_SleepTest (i : Z)         (* line 109: the loop test of SleepUs *)
| W_SleepLoadReset (i : Z)    (* line 111: load of mReset *)
| W_SleepLoadExit (i : Z)     (* line 111: load of mExit *)
| W_AfterSleep (retVal : Z)   (* line 77: the function has returned *)
| W_Lock                      (* line 84: acquiring mMutex *)
| W_CheckReset                (* line 86: load of mReset, mutex held *)
| W_Wait                      (* line 92: about to wait, mutex held *)
| W_Waiting                   (* line 92: parked on mCondition *)
| W_Woken                     (* line 92: notified, re-acquiring mMutex *)
| W_ClearReset                (* line 94: store to mReset, mutex held *)
| W_Unlock                    (* line 95: lck goes out of scope *)
| W_CheckExit                 (* line 95: load of mExit *)
| W_Done.                     (* the thread function has returned *)

(** The calling thread's position in [Reset] (lines 45-55) and in the
    destructor (lines 36-39, 98-106). *)

Inductive OwnerPc : Type :=
| O_Idle                      (* between calls *)
| O_ResetLock                 (* line 46: acquiring mMutex *)
| O_ResetSetFlag              (* line 47 *)
| O_ResetZero                 (* line 53 *)
| O_ResetNotify               (* line 54 *)
| O_ResetUnlock               (* line 55: lck goes out of scope *)
| O_DtorSetExit               (* line 37 *)
| O_DtorCheck                 (* line 103 *)
| O_Join                      (* line 104: blocked in join *)
| O_Destroyed.                (* the destructor has returned *)

(** The public member functions and the destructor. *)
Inductive Call : Type :=
| CallExpired
| CallReset
| CallSleptTime
| CallSleepTimeUs
| CallSleepTimeMs
| CallDestroy.

Record Sys : Type := mkSys {
  obj : AlarmClock;
  pcW : WorkerPc;
  pcO : OwnerPc;
  calls : nat      (* calls of the injected sleep function made so far *)
}.

Definition goW (pc : WorkerPc) (s : Sys) : Sys :=
  mkSys (obj s) pc (pcO s) (calls s).

Definition goO (pc : OwnerPc) (s : Sys) : Sys :=
  mkSys (obj s) (pcW s) pc (calls s).

Definition upd (f : AlarmClock -> AlarmClock) (s : Sys) : Sys :=
  mkSys (f (obj s)) (pcW s) (pcO s) (calls s).

Definition count_call (s : Sys) : Sys :=
  mkSys (obj s) (pcW s) (pcO s) (S (calls s)).

(** ** Construction, lines 22-34

    The members are initialised, a null [funcPtr] is replaced by the bound
    [SleepUs], and the worker thread is started. *)

Definition AlarmClock_new (d : Duration) (sleepDuration : Z)
    (funcPtr : option (nat -> Z -> Z)) : Sys :=
  mkSys
    (mkAlarmClock 0 0 false false
       (to_int sleepDuration)
       (ConvertToMillisecondsCount d sleepDuration)
       (ConvertToMicrosecondsCount d sleepDuration)
       (match funcPtr with
        | None => BoundSleepUs
        | Some f => Injected f
        end)
       true None)
    W_CallSleep O_Idle 0.

(** ** One step of the worker

    [None]: the worker is blocked (on the mutex, on the condition variable)
    or has returned. *)

Definition step_worker (s : Sys) : option Sys :=
  let a := obj s in
  match pcW s with
  | W_CallSleep =>
      match mSleepFunction a with
      | BoundSleepUs => Some (goW (W_SleepTest 1) s)
      | Injected f =>
          Some (count_call
                  (goW (W_AfterSleep (f (calls s) (kSleepTimeUsCount a))) s))
      end
  | W_SleepTest i =>
      if i <? kSleepTimeUsCount a
      then Some (goW (W_SleepLoadReset i) s)       (* sleep_for(1us) *)
      else Some (goW (W_AfterSleep 0) s)
  | W_SleepLoadReset i =>
      if mReset a then Some (goW (W_AfterSleep 1) s)
      else Some (goW (W_SleepLoadExit i) s)
  | W_SleepLoadExit i =>
      if mExit a then Some (goW (W_AfterSleep 1) s)
      else Some (goW (W_SleepTest (to_int (i + 1))) s)
  | W_AfterSleep retVal =>
      if retVal =? 0
      then Some (goW W_Lock (upd (set_mExpired (to_uint (mExpired a + 1))) s))
      else if mExit a then Some (goW W_Done s)
      else Some (goW W_Lock s)
  | W_Lock =>
      match mMutex a with
      | None => Some (goW W_CheckReset (upd (set_mMutex (Some Worker)) s))
      | Some _ => None
      end
  | W_CheckReset =>
      if mReset a then Some (goW W_ClearReset s)
      else Some (goW W_Wait s)
  | W_Wait => Some (goW W_Waiting (upd (set_mMutex None) s))
  | W_Waiting => None
  | W_Woken =>
      match mMutex a with
      | None => Some (goW W_ClearReset (upd (set_mMutex (Some Worker)) s))
      | Some _ => None
      end
  | W_ClearReset => Some (goW W_Unlock (upd (set_mReset false) s))
  | W_Unlock => Some (goW W_CheckExit (upd (set_mMutex None) s))
  | W_CheckExit =>
      if mExit a then Some (goW W_Done s)
      else Some (goW W_CallSleep s)
  | W_Done => None
  end.

(** [mCondition.notify_all()]: every thread parked on the condition variable
    is made runnable.  Only the worker ever waits on it. *)
Definition notify_all (s : Sys) : Sys :=
  match pcW s with
  | W_Waiting => goW W_Woken s
  | _ => s
  end.

(** A wake-up of the parked worker without a notification, which
    [condition_variable::wait] permits. *)
Definition spurious_wakeup (s : Sys) : option Sys :=
  match pcW s with
  | W_Waiting => Some (goW W_Woken s)
  | _ => None
  end.

(** ** The calling threads

    [begin_call]: a member function is entered.  The accessors read and
    return at once, from any thread and whatever the others are doing, and
    leave the state as it is; their result is [call_result].  [Reset] and
    the destructor are entered by the owner when it is idle. *)

Definition begin_call (c : Call) (s : Sys) : option Sys :=
  match c with
  | CallExpired | CallSleptTime | CallSleepTimeUs | CallSleepTimeMs =>
      Some s
  | CallReset =>
      match pcO s with
      | O_Idle => Some (goO O_ResetLock s)
      | _ => None
      end
  | CallDestroy =>
      match pcO s with
      | O_Idle => Some (goO O_DtorSetExit s)
      | _ => None
      end
  end.

Inductive Value : Type :=
| VBool (b : bool)
| VInt (z : Z)
| VVoid.

Definition call_result (c : Call) (s : Sys) : Value :=
  match c with
  | CallExpired => VBool (Expired (obj s))
  | CallSleptTime => VInt (SleptTime (obj s))
  | CallSleepTimeUs => VInt (SleepTimeUs (obj s))
  | CallSleepTimeMs => VInt (SleepTimeMs (obj s))
  | CallReset | CallDestroy => VVoid
  end.

(** The condition of line 103. *)
Definition should_join (a : AlarmClock) : bool := joinable a && mExit a.

(** One step of the owner inside [Reset] or the destructor.  [None]: blocked
    (on the mutex, in [join]) or not inside a call. *)
Definition step_owner (s : Sys) : option Sys :=
  let a := obj s in
  match pcO s with
  | O_Idle => None
  | O_ResetLock =>
      match mMutex a with
      | None => Some (goO O_ResetSetFlag (upd (set_mMutex (Some Owner)) s))
      | Some _ => None
      end
  | O_ResetSetFlag => Some (goO O_ResetZero (upd (set_mReset true) s))
  | O_ResetZero => Some (goO O_ResetNotify (upd (set_mExpired 0) s))
  | O_ResetNotify => Some (goO O_ResetUnlock (notify_all s))
  | O_ResetUnlock => Some (goO O_Idle (upd (set_mMutex None) s))
  | O_DtorSetExit => Some (goO O_DtorCheck (upd (set_mExit true) s))
  | O_DtorCheck =>
      if should_join a then Some (goO O_Join s)
      else Some (goO O_Destroyed s)
  | O_Join =>
      match pcW s with
      | W_Done => Some (goO O_Destroyed (upd (set_joinable false) s))
      | _ => None
      end
  | O_Destroyed => None
  end.

(** ** The system *)

Inductive Label : Type :=
| L_Worker          (* the worker takes its next step *)
| L_Spurious        (* the parked worker wakes without a notification *)
| L_Call (c : Call) (* a member function is entered *)
| L_Owner.          (* the owner takes its next step inside a call *)

Definition step (l : Label) (s : Sys) : option Sys :=
  match l with
  | L_Worker => step_worker s
  | L_Spurious => spurious_wakeup s
  | L_Call c => begin_call c s
  | L_Owner => step_owner s
  end.

Fixpoint run (sched : list Label) (s : Sys) : option Sys :=
  match sched with
  | [] => Some s
  | l :: rest =>
      match step l s with
      | Some s' => run rest s'
      | None => None
      end
  end.

(** The state a schedule leads to ([s] itself when a step of it is
    blocked). *)
Definition after (sched : list Label) (s : Sys) : Sys :=
  match run sched s with
  | Some s' => s'
  | None => s
  end.

(** ** Reading a schedule *)

Definition is_call (l : Label) : bool :=
  match l with
  | L_Call _ => true
  | _ => false
  end.

Definition is_spurious (l : Label) : bool :=
  match l with
  | L_Spurious => true
  | _ => false
  end.

(** The step about to be taken is line 77 of the worker: one pass through
    the loop body. *)
Definition is_iteration (l : Label) (s : Sys) : bool :=
  match l, pcW s with
  | L_Worker, W_AfterSleep _ => true
  | _, _ => false
  end.

(** ... and it is the [mExpired++] of line 79. *)
Definition is_expiry (l : Label) (s : Sys) : bool :=
  match l, pcW s with
  | L_Worker, W_AfterSleep retVal => retVal =? 0
  | _, _ => false
  end.

(** The step about to be taken is the worker's [mReset.store(false)] of
    line 94. *)
Definition is_consume (l : Label) (s : Sys) : bool :=
  match l, pcW s with
  | L_Worker, W_ClearReset => true
  | _, _ => false
  end.

(** The step about to be taken turns [mExit] from [false] to [true]. *)
Definition raises_exit (l : Label) (s : Sys) : bool :=
  match step l s with
  | Some s' => negb (mExit (obj s)) && mExit (obj s')
  | None => false
  end.

(** How many of the steps taken in a run satisfy [p] (the run ends at the
    first step that is blocked). *)
Fixpoint count_steps (p : Label -> Sys -> bool) (sched : list Label)
    (s : Sys) : nat :=
  match sched with
  | [] => 0%nat
  | l :: rest =>
      match step l s with
      | Some s' => ((if p l s then 1 else 0) + count_steps p rest s')%nat
      | None => 0%nat
      end
  end.

(** ** The lock discipline

    The positions at which each thread holds [mMutex]. *)

Definition worker_holds (pc : WorkerPc) : bool :=
  match pc with
  | W_CheckReset | W_Wait | W_ClearReset | W_Unlock => true
  | _ => false
  end.

Definition owner_holds (pc : OwnerPc) : bool :=
  match pc with
  | O_ResetSetFlag | O_ResetZero | O_ResetNotify | O_ResetUnlock => true
  | _ => false
  end.

Definition lock_inv (s : Sys) : Prop :=
  mMutex (obj s) =
    (if worker_holds (pcW s) then Some Worker
     else if owner_holds (pcO s) then Some Owner
     else None)
  /\ worker_holds (pcW s) && owner_holds (pcO s) = false.

(** No notification is lost: the worker is never about to park, or parked,
    with the reset flag up, except while [Reset] is between its store to the
    flag and its [notify_all]. *)
Definition wakeup_inv (s : Sys) : Prop :=
  (pcW s = W_Wait -> mReset (obj s) = false)
  /\ (pcW s = W_Waiting -> mReset (obj s) = true ->
      pcO s = O_ResetZero \/ pcO s = O_ResetNotify).

(** The destructor runs with the thread still joinable. *)
Definition join_inv (s : Sys) : Prop :=
  (pcO s <> O_Destroyed -> joinable (obj s) = true)
  /\ (pcO s = O_DtorCheck \/ pcO s = O_Join -> mExit (obj s) = true).

(** The worker's positions from the check of line 86 up to, and including,
    the store of line 94. *)
Definition before_clear (pc : WorkerPc) : bool :=
  match pc with
  | W_CheckReset | W_Wait | W_Waiting | W_Woken | W_ClearReset => true
  | _ => false
  end.

(** The worker's positions inside [SleepUs]. *)
Definition in_SleepUs (pc : WorkerPc) : bool :=
  match pc with
  | W_SleepTest _ | W_SleepLoadReset _ | W_SleepLoadExit _ => true
  | _ => false
  end.

(** The sleep function is the injected [f], and every value it has returned
    to the worker satisfies [P]. *)
Definition injected_inv (f : nat -> Z -> Z) (P : Z -> Prop) (s : Sys) : Prop :=
  mSleepFunction (obj s) = Injected f
  /\ in_SleepUs (pcW s) = false
  /\ (forall r, pcW s = W_AfterSleep r -> P r).

(** [Reset] has made its store of 0 to [mExpired] and has not yet
    returned. *)
Definition zeroed (pc : OwnerPc) : bool :=
  match pc with
  | O_ResetNotify | O_ResetUnlock => true
  | _ => false
  end.

(** The step about to be taken is an expiry that falls between the store of
    line 53 and the return of [Reset]. *)
Definition is_late_expiry (l : Label) (s : Sys) : bool :=
  is_expiry l s && zeroed (pcO s).

(** What a call of [Reset] has established at each of its positions. *)
Definition reset_inv (s : Sys) : Prop :=
  lock_inv s
  /\ match pcO s with
     | O_Idle | O_ResetLock | O_ResetSetFlag => True
     | O_ResetZero | O_ResetNotify => mReset (obj s) = true
     | O_ResetUnlock => mReset (obj s) = true /\ pcW s <> W_Waiting
     | _ => False
     end.

Definition zero_inv (s : Sys) : Prop :=
  zeroed (pcO s) = true -> mExpired (obj s) = 0.

(** The destructor is running on a joinable thread and the worker is
    parked. *)
Definition stuck_inv (s : Sys) : Prop :=
  pcW s = W_Waiting
  /\ joinable (obj s) = true
  /\ (pcO s = O_DtorSetExit
      \/ (pcO s = O_DtorCheck /\ mExit (obj s) = true)
      \/ pcO s = O_Join).

(** The step about to be taken is the store of 0 to [mExpired] at
    line 53. *)
Definition is_zeroing (l : Label) (s : Sys) : bool :=
  match l, pcO s with
  | L_Owner, O_ResetZero => true
  | _, _ => false
  end.

(** The step about to be taken is a [sleep_for] of line 110. *)
Definition is_sleep (l : Label) (s : Sys) : bool :=
  match l, pcW s with
  | L_Worker, W_SleepTest i => i <? kSleepTimeUsCount (obj s)
  | _, _ => false
  end.

(** The configuration of the object: the members declared [const] and the
    sleep function. *)
Definition config (a : AlarmClock) : Z * Z * Z * SleepFunction :=
  (kSleepTime a, kSleepTimeMsCount a, kSleepTimeUsCount a, mSleepFunction a).

(** [mExit] is up exactly from line 37 of the destructor on, the thread is
    joinable until [join] has returned, and the destructor has not returned
    before the worker. *)
Definition teardown_inv (s : Sys) : Prop :=
  mExit (obj s) =
    match pcO s with
    | O_DtorCheck | O_Join | O_Destroyed => true
    | _ => false
    end
  /\ joinable (obj s) =
     match pcO s with
     | O_Destroyed => false
     | _ => true
     end
  /\ (pcO s = O_Destroyed -> pcW s = W_Done).

(** The sleeps made so far in the current call of [SleepUs] (and, once it
    has returned 0, in the call that has just ended), for a duration of [t]
    microseconds. *)
Definition sleeps_in_call (t : Z) (pc : WorkerPc) : Z :=
  match pc with
  | W_SleepTest i => i - 1
  | W_SleepLoadReset i | W_SleepLoadExit i => i
  | W_AfterSleep retVal => if retVal =? 0 then Z.max 0 (t - 1) else 0
  | _ => 0
  end.

(** The sleep function is [SleepUs], the duration is [t], and the loop
    counter is within its bounds. *)
Definition SleepUs_inv (t : Z) (s : Sys) : Prop :=
  mSleepFunction (obj s) = BoundSleepUs
  /\ kSleepTimeUsCount (obj s) = t
  /\ match pcW s with
     | W_SleepTest i => 1 <= i <= Z.max 1 t
     | W_SleepLoadReset i | W_SleepLoadExit i => 1 <= i < t
     | _ => True
     end.

(** The state an uninterrupted call of [Reset] leaves. *)
Definition after_Reset (s : Sys) : Sys :=
  mkSys (set_mMutex None (set_mExpired 0 (set_mReset true (obj s))))
    (match pcW s with
     | W_Waiting => W_Woken
     | pc => pc
     end)
    O_Idle (calls s).

(** A bound on the steps the worker still takes, once [mExit] is up and
    the owner waits in [join], before it returns or parks. *)
Definition worker_rank (s : Sys) : nat :=
  match pcW s with
  | W_CallSleep => 8
  | W_SleepTest _ => 7
  | W_SleepLoadReset _ => 3
  | W_SleepLoadExit _ => 2
  | W_AfterSleep retVal => if retVal =? 0 then 6 else 1
  | W_Lock => 5
  | W_CheckReset => if mReset (obj s) then 4 else 2
  | W_Wait => 1
  | W_Waiting => 0
  | W_Woken => 4
  | W_ClearReset => 3
  | W_Unlock => 2
  | W_CheckExit => 1
  | W_Done => 0
  end.

(** The owner waits in [join] with [mExit] up. *)
Definition joining_inv (s : Sys) : Prop :=
  lock_inv s /\ pcO s = O_Join /\ mExit (obj s) = true.

(** Line 94 has just been executed, under the mutex: the flag is down. *)
Definition cleared_inv (s : Sys) : Prop :=
  pcW s = W_Unlock -> mReset (obj s) = false.

(** ** Schedules used in the examples *)

(** The worker of an object with a zero duration runs to the wait of
    line 92. *)
Definition until_parked : list Label :=
  [L_Worker; L_Worker; L_Worker; L_Worker; L_Worker; L_Worker].

(** A call of [Reset] run without interruption. *)
Definition whole_Reset : list Label :=
  [L_Call CallReset; L_Owner; L_Owner; L_Owner; L_Owner; L_Owner].

(** One pass of the worker through the loop body when the injected sleep
    function returns 0 and a reset is pending: call, line 79, lock, line 86,
    line 94, unlock, line 95. *)
Definition one_iteration : list Label :=
  [L_Worker; L_Worker; L_Worker; L_Worker; L_Worker; L_Worker; L_Worker].

(** The steps of a woken worker: re-acquire the mutex, line 94, unlock,
    line 95. *)
Definition after_wakeup : list Label :=
  [L_Worker; L_Worker; L_Worker; L_Worker].

(** A zero-duration worker parks, [Reset] wakes it, and it re-acquires the
    mutex: it is about to execute line 94. *)
Definition until_clear : list Label :=
  until_parked ++ whole_Reset ++ [L_Worker].

(** The destructor, up to its [join]. *)
Definition destroy_until_join : list Label :=
  [L_Call CallDestroy; L_Owner; L_Owner].

(** * Properties *)

(** ** Machine integers *)

Lemma to_int_small (z : Z) : - 2 ^ 31 <= z <= INT_MAX -> to_int z = z.
Proof.
  unfold to_int, INT_MAX, UINT_MOD. intros H.
  rewrite Z.mod_small; lia.
Qed.

(** ** [SleepUs] *)

(** With [i <= t <= INT_MAX] the loop makes [t - i] sleeps when no load
    sees a flag, and then returns 0. *)
Lemma SleepUs_loop_quiet (obs : Observations) (t : Z) :
  t <= INT_MAX ->
  forall (fuel : nat) (i : Z) (slept : nat),
    1 <= i <= t ->
    (Z.to_nat (t - i) < fuel)%nat ->
    (forall k : nat, (slept < k <= slept + Z.to_nat (t - i))%nat ->
                     obs k = (false, false)) ->
    SleepUs_loop fuel obs t i slept = Some (0, (slept + Z.to_nat (t - i))%nat).
Proof.
  intros Ht fuel. induction fuel as [| fuel IH]; intros i slept Hi Hf Hq.
  - lia.
  - simpl. destruct (Z.ltb_spec i t) as [Hlt | Hge].
    + rewrite (Hq (S slept)) by lia. simpl.
      rewrite to_int_small by (unfold INT_MAX in *; lia).
      rewrite IH.
      * f_equal. f_equal. lia.
      * lia.
      * lia.
      * intros k Hk. apply Hq. lia.
    + replace (t - i) with 0 by lia. simpl. f_equal. f_equal. lia.
Qed.

Lemma SleepUs_completes (obs : Observations) (t : Z) :
  1 <= t <= INT_MAX ->
  (forall k : nat, (1 <= k <= Z.to_nat (t - 1))%nat -> obs k = (false, false)) ->
  SleepUs (Z.to_nat t) obs t = Some (0, Z.to_nat (t - 1)).
Proof.
  intros Ht Hq. unfold SleepUs.
  rewrite (SleepUs_loop_quiet obs t) by (try apply Hq; lia || (intros; apply Hq; lia)).
  reflexivity.
Qed.

(** A zero duration: no sleep, no load, 0 is returned. *)
Lemma SleepUs_zero (obs : Observations) (fuel : nat) :
  SleepUs (S fuel) obs 0 = Some (0, 0%nat).
Proof. reflexivity. Qed.

Lemma SleepUs_loop_result (obs : Observations) (t : Z) :
  t <= INT_MAX ->
  forall (fuel : nat) (i : Z) (slept : nat),
    1 <= i ->
    (Z.to_nat (t - i) < fuel)%nat ->
    exists r n,
      SleepUs_loop fuel obs t i slept = Some (r, n)
      /\ (slept <= n <= slept + Z.to_nat (t - i))%nat
      /\ (forall k, (slept < k < n)%nat -> sees_flag obs k = false)
      /\ ((r = 1 /\ (slept < n)%nat /\ sees_flag obs n = true)
          \/ (r = 0 /\ n = (slept + Z.to_nat (t - i))%nat
              /\ ((slept < n)%nat -> sees_flag obs n = false))).
Proof.
  intros Ht fuel. induction fuel as [| fuel IH]; intros i slept Hi Hf.
  - lia.
  - simpl. destruct (Z.ltb_spec i t) as [Hlt | Hge].
    + assert (Hs : sees_flag obs (S slept)
                   = let '(reset, exit) := obs (S slept) in reset || exit)
        by reflexivity.
      destruct (obs (S slept)) as [reset exit].
      destruct (reset || exit) eqn:Hre.
      * exists 1, (S slept). split; [reflexivity |].
        split; [lia |]. split; [intros k Hk; lia |].
        left. split; [reflexivity |]. split; [lia | exact Hs].
      * rewrite to_int_small by (unfold INT_MAX in *; lia).
        destruct (IH (i + 1) (S slept)) as [r [n [E [Hb [Hq Hr]]]]];
          [lia | lia |].
        exists r, n. split; [exact E |].
        split; [lia |]. split.
        { intros k Hk. destruct (Nat.eq_dec k (S slept)) as [-> | Nk];
            [exact Hs | apply Hq; lia]. }
        destruct Hr as [[R1 [R2 R3]] | [R1 [R2 R3]]].
        { left. split; [exact R1 |]. split; [lia | exact R3]. }
        { right. split; [exact R1 |]. split; [lia |].
          intros _. destruct (Nat.eq_dec n (S slept)) as [-> | Nn];
            [exact Hs | apply R3; lia]. }
    + exists 0, slept. split; [reflexivity |].
      replace (Z.to_nat (t - i)) with 0%nat by lia.
      split; [lia |]. split; [intros k Hk; lia |].
      right. split; [reflexivity |]. split; [lia | lia].
Qed.

(** X1.  What [SleepUs(t)] does, for [t] up to [INT_MAX]: it returns, after
    at most [t - 1] sleeps; every check before the last found no flag; it
    returns 1 right after the first check that finds one, and 0 after
    [t - 1] sleeps when none does. *)
Theorem SleepUs_result (obs : Observations) (t : Z) (fuel : nat) :
  0 <= t <= INT_MAX ->
  (Z.to_nat t <= fuel)%nat -> (0 < fuel)%nat ->
  exists r n,
    SleepUs fuel obs t = Some (r, n)
    /\ (n <= Z.to_nat (t - 1))%nat
    /\ (forall k, (1 <= k < n)%nat -> sees_flag obs k = false)
    /\ ((r = 1 /\ (1 <= n)%nat /\ sees_flag obs n = true)
        \/ (r = 0 /\ n = Z.to_nat (t - 1)
            /\ ((1 <= n)%nat -> sees_flag obs n = false))).
Proof.
  intros Ht Hf Hf0. unfold SleepUs.
  destruct (SleepUs_loop_result obs t (proj2 Ht) fuel 1 0%nat)
    as [r [n [E [Hb [Hq Hr]]]]]; [lia | lia |].
  exists r, n. split; [exact E |]. split; [lia |]. split; [exact Hq |].
  destruct Hr as [[R1 [R2 R3]] | [R1 [R2 R3]]].
  - left. split; [exact R1 |]. split; [lia | exact R3].
  - right. split; [exact R1 |]. split; [lia | exact R3].
Qed.

(** [SleepUs(4)] with the exit flag raised before the second check. *)
Lemma SleepUs_result_example :
  exists r n,
    SleepUs 4 (fun k => (false, Nat.leb 2 k)) 4 = Some (r, n)
    /\ (n <= 3)%nat.
Proof.
  destruct (SleepUs_result (fun k => (false, Nat.leb 2 k)) 4 4)
    as [r [n [E [Hb _]]]].
  - unfold INT_MAX. lia.
  - vm_compute. lia.
  - lia.
  - exists r, n. split; [exact E | exact Hb].
Defined.

Lemma defaultSleep_spec_loop_quiet (n slept : nat) :
  defaultSleep_spec_loop n quiet slept = (0, (slept + n)%nat).
Proof.
  revert slept. induction n as [| n IH]; intros slept; simpl.
  - f_equal. lia.
  - rewrite IH. f_equal. lia.
Qed.

(** C2.  [SleepUs(t)] makes [t - 1] sleeps of one microsecond, not [t]: the
    counter of line 109 starts at 1 and the test is strict.  With no flag
    raised it returns 0 after [t - 1] sleeps where the specified function
    makes [t]; and [SleepUs(1)] returns 0 without a sleep or a load, also
    with the exit flag up, where the specified function sleeps once, checks,
    and returns 1. *)
Theorem SleepUs_one_increment_short (t : Z) :
  1 <= t <= INT_MAX ->
  SleepUs (Z.to_nat t) quiet t = Some (0, Z.to_nat (t - 1))
  /\ defaultSleep_spec quiet t = (0, Z.to_nat t)
  /\ SleepUs 1 exit_raised 1 = Some (0, 0%nat)
  /\ defaultSleep_spec exit_raised 1 = (1, 1%nat).
Proof.
  intros Ht. repeat split.
  - apply SleepUs_completes; [exact Ht | reflexivity].
  - unfold defaultSleep_spec. rewrite defaultSleep_spec_loop_quiet. reflexivity.
Qed.

Lemma SleepUs_one_increment_short_at_3 :
  1 <= 3 <= INT_MAX
  /\ SleepUs 3 quiet 3 = Some (0, 2%nat)
  /\ defaultSleep_spec quiet 3 = (0, 3%nat).
Proof.
  assert (H : 1 <= 3 <= INT_MAX) by (unfold INT_MAX; lia).
  split; [exact H |].
  destruct (SleepUs_one_increment_short 3 H) as [H1 [H2 _]].
  split; [exact H1 | exact H2].
Defined.

(** ** Steps of the system *)

Arguments to_uint : simpl never.
Arguments to_int : simpl never.

Ltac inv H := inversion H; subst; clear H.

(** Case analysis on one step [H : step l s = Some s']. *)
Ltac split_matches H :=
  repeat match type of H with
    | context [match ?x with _ => _ end] => destruct x eqn:?; cbn in H
    end.

Ltac step_inv H :=
  match type of H with
  | step ?l ?s = Some _ =>
      destruct s as [[me ms mx mr k1 k2 k3 sf j mm] pw po c];
      destruct l as [ | | [ | | | | | ] | ];
      cbn in H;
      [ destruct pw; cbn in H; split_matches H
      | destruct pw; cbn in H
      | idtac
      | destruct po; cbn in H
      | idtac
      | idtac
      | idtac
      | destruct po; cbn in H
      | destruct po; cbn in H; unfold notify_all in H; cbn in H;
        split_matches H ];
      try discriminate H; inv H
  end.

Lemma lock_inv_new (d : Duration) (n : Z) (f : option (nat -> Z -> Z)) :
  lock_inv (AlarmClock_new d n f).
Proof. split; reflexivity. Qed.

Ltac holds_cases :=
  repeat match goal with
    | H : context [owner_holds ?po] |- _ => is_var po; destruct po; cbn in H
    | H : context [worker_holds ?pw] |- _ => is_var pw; destruct pw; cbn in H
    end; cbn in *.

Lemma lock_inv_step (l : Label) (s s' : Sys) :
  step l s = Some s' -> lock_inv s -> lock_inv s'.
Proof.
  intros H I. step_inv H; destruct I as [Hm Hx]; unfold lock_inv; cbn in *;
    try discriminate; holds_cases; try discriminate;
    split; congruence.
Qed.

(** ** Runs *)

Lemma run_app (sched1 sched2 : list Label) (s : Sys) :
  run (sched1 ++ sched2) s =
  match run sched1 s with
  | Some s1 => run sched2 s1
  | None => None
  end.
Proof.
  revert s. induction sched1 as [| l sched1 IH]; intros s; simpl.
  - reflexivity.
  - destruct (step l s) as [s1 |]; [apply IH | reflexivity].
Qed.

(** A property kept by every step is kept by every run. *)
Lemma run_invariant (P : Sys -> Prop) :
  (forall l s s', step l s = Some s' -> P s -> P s') ->
  forall sched s s', run sched s = Some s' -> P s -> P s'.
Proof.
  intros Hstep sched. induction sched as [| l sched IH]; intros s s' Hrun Hs.
  - simpl in Hrun. inv Hrun. exact Hs.
  - simpl in Hrun. destruct (step l s) as [s1 |] eqn:E; [| discriminate].
    apply (IH s1 s' Hrun). apply (Hstep l s s1 E Hs).
Qed.

Lemma lock_inv_run (sched : list Label) (s s' : Sys) :
  run sched s = Some s' -> lock_inv s -> lock_inv s'.
Proof. apply (run_invariant lock_inv). exact lock_inv_step. Qed.

(** ** No lost wake-up *)

Ltac use_hyps :=
  subst; cbn in *;
  repeat match goal with
    | K : ?x = ?x -> _ |- _ => specialize (K eq_refl)
    | K : ?a = ?b -> _, E : ?a = ?b |- _ => specialize (K E)
    | K : _ \/ _ |- _ => destruct K
    | K : _ /\ _ |- _ => destruct K
    end;
  subst; cbn in *; try discriminate; try congruence; auto.

Lemma wakeup_inv_step (l : Label) (s s' : Sys) :
  step l s = Some s' ->
  lock_inv s /\ wakeup_inv s -> lock_inv s' /\ wakeup_inv s'.
Proof.
  intros H [L W]. split; [exact (lock_inv_step l s s' H L) |].
  destruct L as [Lm Lx]. destruct W as [W1 W2].
  step_inv H; unfold wakeup_inv; cbn in *;
    split; intros; try discriminate; try congruence; auto; use_hyps.
Qed.

Lemma wakeup_inv_new (d : Duration) (n : Z) (f : option (nat -> Z -> Z)) :
  lock_inv (AlarmClock_new d n f) /\ wakeup_inv (AlarmClock_new d n f).
Proof.
  split; [apply lock_inv_new |]. split; cbn; intros; discriminate.
Qed.

Lemma wakeup_inv_run (sched : list Label) (s s' : Sys) :
  run sched s = Some s' ->
  lock_inv s /\ wakeup_inv s -> lock_inv s' /\ wakeup_inv s'.
Proof.
  apply (run_invariant (fun s => lock_inv s /\ wakeup_inv s)).
  exact wakeup_inv_step.
Qed.

(** Only the worker's store of line 94 lowers the reset flag. *)
Lemma mReset_lowered_by_worker (l : Label) (s s' : Sys) :
  step l s = Some s' ->
  mReset (obj s) = true -> mReset (obj s') = false ->
  is_consume l s = true.
Proof.
  intros H T F. step_inv H; cbn in *; try congruence; try reflexivity.
Qed.

(** A raised reset flag stays up until the worker consumes it. *)
Lemma mReset_persists (sched : list Label) :
  forall s s', run sched s = Some s' ->
    mReset (obj s) = true ->
    count_steps is_consume sched s = 0%nat ->
    mReset (obj s') = true.
Proof.
  induction sched as [| l sched IH]; intros s s' Hrun T C.
  - simpl in Hrun. inv Hrun. exact T.
  - simpl in Hrun, C. destruct (step l s) as [s1 |] eqn:E; [| discriminate].
    destruct (is_consume l s) eqn:K; [discriminate |].
    apply (IH s1 s' Hrun); [| exact C].
    destruct (mReset (obj s1)) eqn:M; [reflexivity |].
    rewrite (mReset_lowered_by_worker l s s1 E T M) in K. discriminate.
Qed.

(** C9.  No reset is missed.  A store to [mReset] by [Reset] that precedes
    a load of the flag by the worker (line 111 in [SleepUs], line 86 before
    the wait), the worker not having consumed it in between, is read by that
    load: [SleepUs] returns 1 and the wait is skipped.  And the check of
    line 86 and the wait of line 92 are made under the mutex [Reset] holds
    from its store to its [notify_all]: in every state an object can reach,
    the worker is never about to park with the flag up, never parked with the
    flag up unless [Reset] is between its store and its notification, and
    that notification un-parks it. *)
Theorem no_missed_reset :
  (forall sched s s',
      mReset (obj s) = true ->
      run sched s = Some s' ->
      count_steps is_consume sched s = 0%nat ->
      mReset (obj s') = true
      /\ (forall i, pcW s' = W_SleepLoadReset i ->
                    step L_Worker s' = Some (goW (W_AfterSleep 1) s'))
      /\ (pcW s' = W_CheckReset ->
          step L_Worker s' = Some (goW W_ClearReset s')))
  /\ (forall d n f sched s,
      run sched (AlarmClock_new d n f) = Some s ->
      lock_inv s /\ wakeup_inv s)
  /\ (forall s s',
      pcO s = O_ResetNotify -> step L_Owner s = Some s' ->
      pcW s' <> W_Waiting).
Proof.
  split; [| split].
  - intros sched s s' T Hrun C.
    pose proof (mReset_persists sched s s' Hrun T C) as M.
    split; [exact M |]. split.
    + intros i Hpc. unfold step, step_worker. rewrite Hpc, M. reflexivity.
    + intros Hpc. unfold step, step_worker. rewrite Hpc, M. reflexivity.
  - intros d n f sched s Hrun.
    apply (wakeup_inv_run sched _ s Hrun). apply wakeup_inv_new.
  - intros s s' Hpc H. unfold step, step_owner in H. rewrite Hpc in H.
    inv H. unfold notify_all. destruct (pcW s) eqn:E; cbn; rewrite ?E; discriminate.
Qed.

(** [Reset] runs while the worker is in [SleepUs]; the worker's next load
    of the flag reads it and [SleepUs] returns 1. *)
Lemma no_missed_reset_in_sleep :
  exists s,
    run (L_Worker :: L_Worker :: whole_Reset) (AlarmClock_new seconds 1 None)
      = Some s
    /\ pcW s = W_SleepLoadReset 1
    /\ step L_Worker s = Some (goW (W_AfterSleep 1) s).
Proof.
  eexists. split; [reflexivity |]. split; [reflexivity |].
  refine (proj1 (proj2 (proj1 no_missed_reset
            [L_Owner; L_Owner; L_Owner]
            (goO O_ResetZero
               (upd (set_mReset true)
                  (upd (set_mMutex (Some Owner))
                     (goW (W_SleepLoadReset 1)
                        (AlarmClock_new seconds 1 None)))))
            _ eq_refl eq_refl eq_refl)) 1 eq_refl).
Defined.

(** ** The elapsed-sleep counter *)

Lemma mSleptTime_step (l : Label) (s s' : Sys) :
  step l s = Some s' -> mSleptTime (obj s') = mSleptTime (obj s).
Proof. intros H. step_inv H; reflexivity. Qed.

(** C10.  [mSleptTime] is 0 after construction, no step of either thread
    writes it, and [SleptTime()] returns 0 in every state the object can
    reach. *)
Theorem mSleptTime_never_updated :
  (forall d n f, mSleptTime (obj (AlarmClock_new d n f)) = 0)
  /\ (forall l s s',
      step l s = Some s' -> mSleptTime (obj s') = mSleptTime (obj s))
  /\ (forall d n f sched s,
      run sched (AlarmClock_new d n f) = Some s ->
      SleptTime (obj s) = 0 /\ call_result CallSleptTime s = VInt 0).
Proof.
  split; [reflexivity |]. split; [exact mSleptTime_step |].
  intros d n f sched s Hrun.
  assert (E : SleptTime (obj s) = 0).
  { apply (run_invariant (fun s => SleptTime (obj s) = 0)
             (fun l s s' H P => eq_trans (mSleptTime_step l s s' H) P)
             sched _ s Hrun).
    reflexivity. }
  split; [exact E |]. unfold call_result. rewrite E. reflexivity.
Qed.

(** After an expiry, a reset and the start of the destructor the counter
    still reads 0. *)
Lemma mSleptTime_never_updated_example :
  exists s,
    run (until_parked ++ whole_Reset ++ destroy_until_join)
      (AlarmClock_new microseconds 0 None) = Some s
    /\ SleptTime (obj s) = 0.
Proof.
  eexists. split; [vm_compute; reflexivity |].
  apply (proj2 (proj2 mSleptTime_never_updated) microseconds 0 None
           (until_parked ++ whole_Reset ++ destroy_until_join)).
  vm_compute; reflexivity.
Defined.

(** ** The exit flag *)

Lemma mExit_stays_up (l : Label) (s s' : Sys) :
  step l s = Some s' -> mExit (obj s) = true -> mExit (obj s') = true.
Proof. intros H T. step_inv H; cbn in *; congruence. Qed.

Lemma mExit_written_by_destructor (l : Label) (s s' : Sys) :
  step l s = Some s' -> mExit (obj s') <> mExit (obj s) ->
  l = L_Owner /\ pcO s = O_DtorSetExit.
Proof.
  intros H N. step_inv H; cbn in *; try congruence; split; reflexivity.
Qed.

Lemma raises_exit_step (l : Label) (s s1 : Sys) :
  step l s = Some s1 ->
  raises_exit l s = negb (mExit (obj s)) && mExit (obj s1).
Proof. intros E. unfold raises_exit. rewrite E. reflexivity. Qed.

Lemma no_raise_once_up (sched : list Label) :
  forall s, mExit (obj s) = true ->
            count_steps raises_exit sched s = 0%nat.
Proof.
  induction sched as [| l sched IH]; intros s T; simpl; [reflexivity |].
  destruct (step l s) as [s1 |] eqn:E; [| reflexivity].
  rewrite (raises_exit_step l s s1 E), T. simpl.
  apply IH. apply (mExit_stays_up l s s1 E T).
Qed.

Lemma raised_at_most_once (sched : list Label) :
  forall s, (count_steps raises_exit sched s <= 1)%nat.
Proof.
  induction sched as [| l sched IH]; intros s; simpl; [lia |].
  destruct (step l s) as [s1 |] eqn:E; [| lia].
  rewrite (raises_exit_step l s s1 E).
  destruct (negb (mExit (obj s)) && mExit (obj s1)) eqn:R.
  - apply andb_true_iff in R. destruct R as [_ R].
    rewrite (no_raise_once_up sched s1 R). lia.
  - specialize (IH s1). lia.
Qed.

(** C7.  [mExit] is [false] after construction; no step of either thread
    takes it from [true] to [false]; the only step that changes it is the
    store of line 37 in the destructor; and in any run, from any state, it
    goes from [false] to [true] at most once. *)
Theorem mExit_monotone :
  (forall d n f, mExit (obj (AlarmClock_new d n f)) = false)
  /\ (forall l s s',
      step l s = Some s' -> mExit (obj s) = true -> mExit (obj s') = true)
  /\ (forall l s s',
      step l s = Some s' -> mExit (obj s') <> mExit (obj s) ->
      l = L_Owner /\ pcO s = O_DtorSetExit)
  /\ (forall sched s, (count_steps raises_exit sched s <= 1)%nat).
Proof.
  split; [reflexivity |]. split; [exact mExit_stays_up |].
  split; [exact mExit_written_by_destructor |].
  exact raised_at_most_once.
Qed.

(** The flag is raised once in a run through the destructor. *)
Lemma mExit_monotone_example :
  count_steps raises_exit (until_parked ++ destroy_until_join)
    (AlarmClock_new microseconds 0 None) = 1%nat
  /\ (count_steps raises_exit (until_parked ++ destroy_until_join)
        (AlarmClock_new microseconds 0 None) <= 1)%nat.
Proof.
  split; [vm_compute; reflexivity |].
  apply (proj2 (proj2 (proj2 mExit_monotone))).
Defined.

(** ** [Expired] *)

(** C6.  [Expired()] is [true] exactly when [mExpired] is not 0; it is the
    value the call returns; and the call, made in any state, whatever the
    two threads are doing and whoever holds the mutex, is never blocked and
    leaves the whole state as it is. *)
Theorem Expired_reads_mExpired (s : Sys) :
  (Expired (obj s) = true <-> mExpired (obj s) <> 0)
  /\ call_result CallExpired s = VBool (Expired (obj s))
  /\ step (L_Call CallExpired) s = Some s.
Proof.
  split; [| split].
  - unfold Expired. rewrite negb_true_iff. apply Z.eqb_neq.
  - reflexivity.
  - reflexivity.
Qed.

(** [Expired] called while the worker holds the mutex, after one expiry. *)
Lemma Expired_reads_mExpired_example :
  exists s,
    run [L_Worker; L_Worker; L_Worker; L_Worker] (AlarmClock_new microseconds 0 None) = Some s
    /\ mMutex (obj s) = Some Worker
    /\ call_result CallExpired s = VBool true
    /\ step (L_Call CallExpired) s = Some s.
Proof.
  eexists. split; [vm_compute; reflexivity |]. split; [reflexivity |].
  split; [reflexivity |].
  apply (proj2 (proj2 (Expired_reads_mExpired _))).
Defined.

(** ** The join *)

Lemma join_inv_step (l : Label) (s s' : Sys) :
  step l s = Some s' -> join_inv s -> join_inv s'.
Proof.
  intros H [J1 J2]. step_inv H; unfold join_inv; cbn in *;
    split; intros; use_hyps;
    try (apply J1; discriminate);
    try (apply J2; auto; fail).
Qed.

Lemma join_inv_new (d : Duration) (n : Z) (f : option (nat -> Z -> Z)) :
  join_inv (AlarmClock_new d n f).
Proof. split; cbn; intros; [reflexivity | use_hyps]. Qed.

(** The guard of line 103.  The test sends the destructor into [join]
    exactly when the thread is joinable and [mExit] is [true], and skips the
    join otherwise; [join] is entered by no other step; it returns only once the
    worker function has returned, and it alone changes [joinable]; and in a
    destructor run on a constructed object the test always finds both
    conditions true. *)
Theorem join_iff_joinable_and_exit :
  (forall s,
      pcO s = O_DtorCheck ->
      step L_Owner s =
      Some (goO (if joinable (obj s) && mExit (obj s)
                 then O_Join else O_Destroyed) s))
  /\ (forall l s s',
      step l s = Some s' -> pcO s' = O_Join -> pcO s <> O_Join ->
      l = L_Owner /\ pcO s = O_DtorCheck
      /\ joinable (obj s) = true /\ mExit (obj s) = true)
  /\ (forall s s',
      pcO s = O_Join -> step L_Owner s = Some s' ->
      pcW s = W_Done /\ s' = goO O_Destroyed (upd (set_joinable false) s))
  /\ (forall l s s',
      step l s = Some s' -> joinable (obj s') <> joinable (obj s) ->
      l = L_Owner /\ pcO s = O_Join)
  /\ (forall d n f sched s,
      run sched (AlarmClock_new d n f) = Some s ->
      pcO s = O_DtorCheck ->
      joinable (obj s) && mExit (obj s) = true).
Proof.
  split; [| split; [| split; [| split]]].
  - intros s Hpc. unfold step, step_owner, should_join. rewrite Hpc.
    destruct (joinable (obj s) && mExit (obj s)); reflexivity.
  - intros l s s' H Hpc' Hpc. step_inv H; cbn in *; try congruence.
    unfold should_join in *. cbn in *.
    match goal with E : _ && _ = true |- _ => apply andb_true_iff in E; destruct E end.
    auto.
  - intros s s' Hpc H. unfold step, step_owner in H. rewrite Hpc in H.
    destruct (pcW s); try discriminate. inv H. split; reflexivity.
  - intros l s s' H N. step_inv H; cbn in *; try congruence. split; reflexivity.
  - intros d n f sched s Hrun Hpc.
    destruct (run_invariant join_inv join_inv_step sched _ s Hrun
                (join_inv_new d n f)) as [J1 J2].
    rewrite J1 by congruence. rewrite J2 by auto. reflexivity.
Qed.

(** The destructor of an object whose worker has parked reaches the test
    with both conditions true and goes on to [join]. *)
Lemma join_iff_joinable_and_exit_example :
  exists s,
    run (until_parked ++ [L_Call CallDestroy; L_Owner])
      (AlarmClock_new microseconds 0 None) = Some s
    /\ pcO s = O_DtorCheck
    /\ step L_Owner s = Some (goO O_Join s).
Proof.
  eexists. split; [vm_compute; reflexivity |]. split; [reflexivity |].
  apply (proj1 join_iff_joinable_and_exit). reflexivity.
Defined.

(** ** The steps after the sleep *)

Lemma before_clear_kept (sched : list Label) :
  forall s s', run sched s = Some s' ->
    before_clear (pcW s) = true ->
    count_steps is_consume sched s = 0%nat ->
    before_clear (pcW s') = true.
Proof.
  induction sched as [| l sched IH]; intros s s' Hrun B C.
  - simpl in Hrun. inv Hrun. exact B.
  - simpl in Hrun, C. destruct (step l s) as [s1 |] eqn:E; [| discriminate].
    destruct (is_consume l s) eqn:K; [discriminate |].
    apply (IH s1 s' Hrun); [| exact C].
    clear IH Hrun C. step_inv E; cbn in *; try discriminate; auto.
Qed.

Lemma before_clear_step (l : Label) (s s1 : Sys) :
  step l s = Some s1 ->
  before_clear (pcW s) = true -> is_consume l s = false ->
  before_clear (pcW s1) = true.
Proof.
  intros E B K. step_inv E; cbn in *; try discriminate; auto.
Qed.

(** A run that takes the worker from lines 86-94 to anywhere else contains
    the step of line 94. *)
Lemma clear_found (sched : list Label) :
  forall s s',
    before_clear (pcW s) = true ->
    run sched s = Some s' ->
    before_clear (pcW s') = false ->
    exists sched1 sched2 s1 s2,
      sched = sched1 ++ L_Worker :: sched2
      /\ run sched1 s = Some s1
      /\ pcW s1 = W_ClearReset
      /\ step L_Worker s1 = Some s2
      /\ run sched2 s2 = Some s'.
Proof.
  induction sched as [| l sched IH]; intros s s' B Hrun E.
  - simpl in Hrun. inv Hrun. congruence.
  - simpl in Hrun. destruct (step l s) as [sa |] eqn:Hs; [| discriminate].
    destruct (is_consume l s) eqn:K.
    + unfold is_consume in K. destruct l; try discriminate K.
      destruct (pcW s) eqn:Hpc; try discriminate K.
      exists [], sched, s, sa. repeat split; assumption.
    + pose proof (before_clear_step l s sa Hs B K) as Ba.
      destruct (IH sa s' Ba Hrun E)
        as [sched1 [sched2 [s1 [s2 [H1 [H2 [H3 [H4 H5]]]]]]]].
      exists (l :: sched1), sched2, s1, s2.
      split; [simpl; rewrite H1; reflexivity |].
      split; [simpl; rewrite Hs; exact H2 |].
      repeat split; assumption.
Qed.

(** What line 94 does to the object. *)
Lemma clear_step (s s' : Sys) :
  pcW s = W_ClearReset -> step L_Worker s = Some s' ->
  mReset (obj s') = false
  /\ pcW s' = W_Unlock
  /\ mMutex (obj s') = mMutex (obj s)
  /\ mExit (obj s') = mExit (obj s)
  /\ mExpired (obj s') = mExpired (obj s).
Proof.
  intros Hpc H. unfold step, step_worker in H. rewrite Hpc in H. inv H.
  repeat split.
Qed.

Lemma cleared_inv_step (l : Label) (s s' : Sys) :
  step l s = Some s' ->
  lock_inv s /\ cleared_inv s -> lock_inv s' /\ cleared_inv s'.
Proof.
  intros H [L C]. split; [exact (lock_inv_step l s s' H L) |].
  destruct L as [Lm Lx]. unfold cleared_inv in *.
  step_inv H; cbn in *; intros; try discriminate; try reflexivity;
    use_hyps.
Qed.

Lemma cleared_inv_run (d : Duration) (n : Z) (f : option (nat -> Z -> Z))
    (sched : list Label) (s : Sys) :
  run sched (AlarmClock_new d n f) = Some s -> cleared_inv s.
Proof.
  intros Hrun.
  apply (run_invariant (fun x => lock_inv x /\ cleared_inv x)
           cleared_inv_step sched _ s Hrun).
  split; [apply lock_inv_new | unfold cleared_inv; cbn; discriminate].
Qed.

(** C5.  At line 86 the worker goes on to the wait exactly when [mReset]
    is [false], and straight to line 94 when it is [true]; the wait gives
    up the mutex and parks; a woken worker re-acquires the mutex and comes
    to line 94; line 94 leaves [mReset] [false]; then the mutex is released
    and [mExit] decides between returning and another countdown.  On a
    constructed object these steps are made with the mutex held, so right
    after line 94 [mReset] is [false] whatever the other thread does; and
    every run that takes the worker from line 86 to its return or to the
    next countdown passes through line 94, after which [mReset] is
    [false]. *)
Theorem wait_iff_no_reset_then_clear :
  (forall s,
      pcW s = W_CheckReset ->
      step L_Worker s =
      Some (goW (if mReset (obj s) then W_ClearReset else W_Wait) s))
  /\ (forall s,
      pcW s = W_Wait ->
      step L_Worker s = Some (goW W_Waiting (upd (set_mMutex None) s)))
  /\ (forall s, pcW s = W_Waiting -> step L_Worker s = None)
  /\ (forall s s',
      pcW s = W_Woken -> step L_Worker s = Some s' ->
      mMutex (obj s) = None
      /\ s' = goW W_ClearReset (upd (set_mMutex (Some Worker)) s))
  /\ (forall s,
      pcW s = W_ClearReset ->
      step L_Worker s = Some (goW W_Unlock (upd (set_mReset false) s)))
  /\ (forall s,
      pcW s = W_Unlock ->
      step L_Worker s = Some (goW W_CheckExit (upd (set_mMutex None) s)))
  /\ (forall s,
      pcW s = W_CheckExit ->
      step L_Worker s =
      Some (goW (if mExit (obj s) then W_Done else W_CallSleep) s))
  /\ (forall d n f sched s,
      run sched (AlarmClock_new d n f) = Some s ->
      worker_holds (pcW s) = true -> mMutex (obj s) = Some Worker)
  /\ (forall sched s s',
      pcW s = W_CheckReset ->
      run sched s = Some s' ->
      pcW s' = W_Done \/ pcW s' = W_CallSleep ->
      (1 <= count_steps is_consume sched s)%nat)
  /\ (forall s s',
      pcW s = W_Wait -> step L_Worker s = Some s' ->
      pcW s' = W_Waiting /\ mMutex (obj s') = None
      /\ mReset (obj s') = mReset (obj s))
  /\ (forall s s',
      pcW s = W_Woken -> step L_Worker s = Some s' ->
      pcW s' = W_ClearReset /\ mMutex (obj s') = Some Worker)
  /\ (forall s s',
      pcW s = W_ClearReset -> step L_Worker s = Some s' ->
      mReset (obj s') = false
      /\ pcW s' = W_Unlock
      /\ mMutex (obj s') = mMutex (obj s)
      /\ mExit (obj s') = mExit (obj s)
      /\ mExpired (obj s') = mExpired (obj s))
  /\ (forall s s',
      pcW s = W_Unlock -> step L_Worker s = Some s' ->
      pcW s' = W_CheckExit /\ mMutex (obj s') = None
      /\ mReset (obj s') = mReset (obj s))
  /\ (forall d n f sched s,
      run sched (AlarmClock_new d n f) = Some s ->
      pcW s = W_Unlock ->
      mReset (obj s) = false /\ mMutex (obj s) = Some Worker)
  /\ (forall sched s s',
      pcW s = W_CheckReset ->
      run sched s = Some s' ->
      pcW s' = W_Done \/ pcW s' = W_CallSleep ->
      exists sched1 sched2 s1 s2,
        sched = sched1 ++ L_Worker :: sched2
        /\ run sched1 s = Some s1
        /\ pcW s1 = W_ClearReset
        /\ step L_Worker s1 = Some s2
        /\ mReset (obj s2) = false
        /\ pcW s2 = W_Unlock
        /\ run sched2 s2 = Some s').
Proof.
  repeat match goal with |- _ /\ _ => split end.
  - intros s Hpc. unfold step, step_worker. rewrite Hpc.
    destruct (mReset (obj s)); reflexivity.
  - intros s Hpc. unfold step, step_worker. rewrite Hpc. reflexivity.
  - intros s Hpc. unfold step, step_worker. rewrite Hpc. reflexivity.
  - intros s s' Hpc H. unfold step, step_worker in H. rewrite Hpc in H.
    destruct (mMutex (obj s)); [discriminate |]. inv H. split; reflexivity.
  - intros s Hpc. unfold step, step_worker. rewrite Hpc. reflexivity.
  - intros s Hpc. unfold step, step_worker. rewrite Hpc. reflexivity.
  - intros s Hpc. unfold step, step_worker. rewrite Hpc.
    destruct (mExit (obj s)); reflexivity.
  - intros d n f sched s Hrun Hh.
    destruct (lock_inv_run sched _ s Hrun (lock_inv_new d n f)) as [Lm _].
    rewrite Hh in Lm. exact Lm.
  - intros sched s s' Hpc Hrun Hend.
    destruct (count_steps is_consume sched s) eqn:C; [| lia].
    assert (B : before_clear (pcW s') = true).
    { apply (before_clear_kept sched s s' Hrun); [rewrite Hpc; reflexivity | exact C]. }
    destruct Hend as [E | E]; rewrite E in B; discriminate.
  - intros s s' Hpc H. unfold step, step_worker in H. rewrite Hpc in H.
    inv H. repeat split.
  - intros s s' Hpc H. unfold step, step_worker in H. rewrite Hpc in H.
    destruct (mMutex (obj s)); [discriminate |]. inv H. split; reflexivity.
  - exact clear_step.
  - intros s s' Hpc H. unfold step, step_worker in H. rewrite Hpc in H.
    inv H. repeat split.
  - intros d n f sched s Hrun Hpc. split.
    + apply (cleared_inv_run d n f sched s Hrun Hpc).
    + destruct (lock_inv_run sched _ s Hrun (lock_inv_new d n f)) as [Lm _].
      rewrite Hpc in Lm. exact Lm.
  - intros sched s s' Hpc Hrun Hend.
    destruct (clear_found sched s s')
      as [sched1 [sched2 [s1 [s2 [H1 [H2 [H3 [H4 H5]]]]]]]].
    + rewrite Hpc. reflexivity.
    + exact Hrun.
    + destruct Hend as [E | E]; rewrite E; reflexivity.
    + destruct (clear_step s1 s2 H3 H4) as [C1 [C2 _]].
      exists sched1, sched2, s1, s2. repeat split; assumption.
Qed.

(** With no reset pending the worker of a zero-duration object parks; a
    [Reset] raises the flag and wakes it; the woken worker lowers the flag at
    line 94 and starts the next countdown. *)
Lemma wait_iff_no_reset_then_clear_example :
  pcW (after [L_Worker; L_Worker; L_Worker; L_Worker]
         (AlarmClock_new microseconds 0 None)) = W_CheckReset
  /\ step L_Worker (after [L_Worker; L_Worker; L_Worker; L_Worker]
                      (AlarmClock_new microseconds 0 None))
     = Some (goW W_Wait (after [L_Worker; L_Worker; L_Worker; L_Worker]
                           (AlarmClock_new microseconds 0 None)))
  /\ pcW (after until_clear (AlarmClock_new microseconds 0 None))
     = W_ClearReset
  /\ mReset (obj (after until_clear (AlarmClock_new microseconds 0 None)))
     = true
  /\ mReset (obj (after (until_clear ++ [L_Worker])
                    (AlarmClock_new microseconds 0 None))) = false
  /\ pcW (after (until_clear ++ [L_Worker; L_Worker; L_Worker])
            (AlarmClock_new microseconds 0 None)) = W_CallSleep.
Proof.
  split; [vm_compute; reflexivity |].
  split; [apply (proj1 wait_iff_no_reset_then_clear); vm_compute; reflexivity |].
  split; [vm_compute; reflexivity |].
  split; [vm_compute; reflexivity |].
  split; [| vm_compute; reflexivity].
  refine (proj1 (proj1 (proj2 (proj2 (proj2 (proj2 (proj2 (proj2 (proj2
            (proj2 (proj2 (proj2 (proj2 wait_iff_no_reset_then_clear)))))))))))
            (after until_clear (AlarmClock_new microseconds 0 None))
            (after (until_clear ++ [L_Worker])
               (AlarmClock_new microseconds 0 None))
            _ _)); vm_compute; reflexivity.
Defined.

(** ** Expiry and the result of the sleep function *)

Lemma expiry_step (s s' : Sys) (r : Z) :
  pcW s = W_AfterSleep r -> step L_Worker s = Some s' ->
  mExpired (obj s') =
  if r =? 0 then to_uint (mExpired (obj s) + 1) else mExpired (obj s).
Proof.
  intros Hpc H. unfold step, step_worker in H. rewrite Hpc in H.
  destruct (r =? 0).
  - inv H. reflexivity.
  - destruct (mExit (obj s)); inv H; reflexivity.
Qed.

Lemma mExpired_changed_by_worker (s s' : Sys) :
  step L_Worker s = Some s' -> mExpired (obj s') <> mExpired (obj s) ->
  is_expiry L_Worker s = true.
Proof.
  intros H N. remember L_Worker as l eqn:El.
  step_inv H; try discriminate El; cbn in *; try congruence.
Qed.

Section InjectedSleep.

Variable f : nat -> Z -> Z.
Variable P : Z -> Prop.
Hypothesis f_in_P : forall k t, P (f k t).

Lemma injected_inv_step (l : Label) (s s' : Sys) :
  step l s = Some s' -> injected_inv f P s -> injected_inv f P s'.
Proof.
  intros H [I1 [I2 I3]]. step_inv H; unfold injected_inv; cbn in *;
    try discriminate;
    (split; [assumption | split; [reflexivity || assumption |]]);
    intros r Hr; try discriminate; auto.
  inv Hr. inv I1. apply f_in_P.
Qed.

Lemma injected_inv_new (d : Duration) (n : Z) :
  injected_inv f P (AlarmClock_new d n (Some f)).
Proof. split; [reflexivity |]. split; [reflexivity |]. cbn. discriminate. Qed.

End InjectedSleep.

(** When every result is 0, each pass through line 77 is an expiry. *)
Lemma expiries_are_iterations (f : nat -> Z -> Z) (sched : list Label) :
  (forall k t, f k t = 0) ->
  forall s, injected_inv f (fun r => r = 0) s ->
            count_steps is_expiry sched s = count_steps is_iteration sched s.
Proof.
  intros Hf. induction sched as [| l sched IH]; intros s I; simpl.
  - reflexivity.
  - assert (E : is_expiry l s = is_iteration l s).
    { unfold is_expiry, is_iteration. destruct l; try reflexivity.
      destruct (pcW s) eqn:Hpc; try reflexivity.
      destruct I as [_ [_ I3]]. rewrite (I3 retVal Hpc). reflexivity. }
    destruct (step l s) as [s1 |] eqn:Hs; [| reflexivity].
    rewrite E, (IH s1); [reflexivity |].
    apply (injected_inv_step f _ Hf l s s1 Hs I).
Qed.

(** When no result is 0, no step is an expiry and [mExpired] is kept. *)
Lemma no_expiry_when_interrupted (f : nat -> Z -> Z) (sched : list Label) :
  (forall k t, f k t <> 0) ->
  forall s, injected_inv f (fun r => r <> 0) s ->
            count_steps is_expiry sched s = 0%nat.
Proof.
  intros Hf. induction sched as [| l sched IH]; intros s I; simpl.
  - reflexivity.
  - assert (E : is_expiry l s = false).
    { unfold is_expiry. destruct l; try reflexivity.
      destruct (pcW s) eqn:Hpc; try reflexivity.
      destruct I as [_ [_ I3]]. apply Z.eqb_neq. apply (I3 retVal Hpc). }
    destruct (step l s) as [s1 |] eqn:Hs; [| reflexivity].
    rewrite E. apply (IH s1). apply (injected_inv_step f _ Hf l s s1 Hs I).
Qed.

Lemma mExpired_zero_kept (l : Label) (s s' : Sys) :
  step l s = Some s' -> is_expiry l s = false ->
  mExpired (obj s) = 0 -> mExpired (obj s') = 0.
Proof.
  intros H E Z0. step_inv H; cbn in *; try discriminate; try congruence;
    reflexivity.
Qed.

Lemma mExpired_zero_run (sched : list Label) :
  forall s s', run sched s = Some s' ->
    count_steps is_expiry sched s = 0%nat ->
    mExpired (obj s) = 0 -> mExpired (obj s') = 0.
Proof.
  induction sched as [| l sched IH]; intros s s' Hrun C Z0.
  - simpl in Hrun. inv Hrun. exact Z0.
  - simpl in Hrun, C. destruct (step l s) as [s1 |] eqn:E; [| discriminate].
    destruct (is_expiry l s) eqn:K; [discriminate |].
    apply (IH s1 s' Hrun C). apply (mExpired_zero_kept l s s1 E K Z0).
Qed.

(** C4.  The step of the worker after the sleep function has returned [r]
    increments [mExpired] (by one, modulo 2^32) when [r] is 0 and leaves it
    as it is otherwise, and no other step of the worker changes it.  Hence
    with an injected function that always returns 0, the expiries of any run
    are as many as the passes through the loop body; and with one that never
    returns 0, no run has an expiry and [mExpired] stays 0. *)
Theorem expiry_iff_sleep_completed :
  (forall s r s',
      pcW s = W_AfterSleep r -> step L_Worker s = Some s' ->
      mExpired (obj s') =
      if r =? 0 then to_uint (mExpired (obj s) + 1) else mExpired (obj s))
  /\ (forall s s',
      step L_Worker s = Some s' -> mExpired (obj s') <> mExpired (obj s) ->
      is_expiry L_Worker s = true)
  /\ (forall d n f sched,
      (forall k t, f k t = 0) ->
      count_steps is_expiry sched (AlarmClock_new d n (Some f)) =
      count_steps is_iteration sched (AlarmClock_new d n (Some f)))
  /\ (forall d n f sched s,
      (forall k t, f k t <> 0) ->
      run sched (AlarmClock_new d n (Some f)) = Some s ->
      count_steps is_expiry sched (AlarmClock_new d n (Some f)) = 0%nat
      /\ mExpired (obj s) = 0
      /\ Expired (obj s) = false).
Proof.
  split; [| split; [| split]].
  - exact (fun s r s' => expiry_step s s' r).
  - exact mExpired_changed_by_worker.
  - intros d n f sched Hf.
    apply (expiries_are_iterations f sched Hf). apply injected_inv_new.
  - intros d n f sched s Hf Hrun.
    assert (C : count_steps is_expiry sched (AlarmClock_new d n (Some f)) = 0%nat).
    { apply (no_expiry_when_interrupted f sched Hf). apply injected_inv_new. }
    assert (Z0 : mExpired (obj s) = 0).
    { apply (mExpired_zero_run sched _ s Hrun C). reflexivity. }
    split; [exact C |]. split; [exact Z0 |].
    unfold Expired. rewrite Z0. reflexivity.
Qed.

(** An injected function that returns 0 at once: with a reset pending at
    each check of line 86 the worker makes two passes and two increments. *)
Lemma expiry_iff_sleep_completed_example :
  count_steps is_iteration (whole_Reset ++ one_iteration ++ whole_Reset ++ one_iteration)
    (AlarmClock_new seconds 10 (Some (fun _ _ => 0))) = 2%nat
  /\ count_steps is_expiry (whole_Reset ++ one_iteration ++ whole_Reset ++ one_iteration)
       (AlarmClock_new seconds 10 (Some (fun _ _ => 0))) = 2%nat.
Proof.
  split; [vm_compute; reflexivity |].
  rewrite (proj1 (proj2 (proj2 expiry_iff_sleep_completed))
             seconds 10 (fun _ _ => 0)
             (whole_Reset ++ one_iteration ++ whole_Reset ++ one_iteration)
             (fun _ _ => eq_refl)).
  vm_compute; reflexivity.
Defined.

(** ** [Reset] *)

Ltac reset_fin :=
  cbn in *; use_hyps; try exact I; try contradiction; try assumption;
  try (split; [reflexivity || assumption || congruence | discriminate]).

Lemma reset_inv_step (l : Label) (s s' : Sys) :
  is_call l = false ->
  step l s = Some s' -> reset_inv s -> reset_inv s'.
Proof.
  intros C H [L R]. split; [exact (lock_inv_step l s s' H L) |].
  destruct L as [Lm Lx].
  step_inv H; cbn in *; try discriminate; try destruct po; reset_fin.
Qed.

Lemma reset_inv_run (sched : list Label) :
  forall s s', forallb (fun l => negb (is_call l)) sched = true ->
    run sched s = Some s' -> reset_inv s -> reset_inv s'.
Proof.
  induction sched as [| l sched IH]; intros s s' C Hrun R.
  - simpl in Hrun. inv Hrun. exact R.
  - simpl in Hrun, C. apply andb_true_iff in C. destruct C as [C1 C2].
    apply negb_true_iff in C1.
    destruct (step l s) as [s1 |] eqn:E; [| discriminate].
    apply (IH s1 s' C2 Hrun). apply (reset_inv_step l s s1 C1 E R).
Qed.

Lemma zero_inv_step (l : Label) (s s' : Sys) :
  step l s = Some s' -> is_late_expiry l s = false ->
  zero_inv s -> zero_inv s'.
Proof.
  intros H E Z0. unfold zero_inv, is_late_expiry in *.
  step_inv H; cbn in *; try discriminate; try assumption;
    try (intros; reflexivity);
    try (destruct po; cbn in *; try discriminate; auto;
         match goal with
         | E1 : (?r =? 0) = true, E2 : (?r =? 0) && true = false |- _ =>
             rewrite E1 in E2; discriminate E2
         end).
Qed.

Lemma zero_inv_run (sched : list Label) :
  forall s s', run sched s = Some s' ->
    count_steps is_late_expiry sched s = 0%nat ->
    zero_inv s -> zero_inv s'.
Proof.
  induction sched as [| l sched IH]; intros s s' Hrun C Z0.
  - simpl in Hrun. inv Hrun. exact Z0.
  - simpl in Hrun, C. destruct (step l s) as [s1 |] eqn:E; [| discriminate].
    destruct (is_late_expiry l s) eqn:K; [discriminate |].
    apply (IH s1 s' Hrun C). apply (zero_inv_step l s s1 E K Z0).
Qed.

Lemma begin_Reset (s : Sys) :
  pcO s = O_Idle -> step (L_Call CallReset) s = Some (goO O_ResetLock s).
Proof. intros Hpc. cbn. rewrite Hpc. reflexivity. Qed.

(** A call of [Reset] run with the mutex free and no step of the worker in
    between. *)
Lemma whole_Reset_effect (s : Sys) :
  pcO s = O_Idle -> mMutex (obj s) = None ->
  exists s',
    run whole_Reset s = Some s'
    /\ pcO s' = O_Idle
    /\ mMutex (obj s') = None
    /\ mReset (obj s') = true
    /\ mExpired (obj s') = 0
    /\ pcW s' <> W_Waiting.
Proof.
  destruct s as [[me ms mx mr k1 k2 k3 sf j mm] pw po c]. cbn.
  intros -> ->. cbn. eexists. split; [reflexivity |].
  unfold notify_all. destruct pw; cbn; repeat split; discriminate.
Qed.

(** C3.  [Reset] takes the mutex, stores [true] to [mReset], stores 0 to
    [mExpired], wakes the worker if it is parked, and releases the mutex.
    For a call made in any state a constructed object can reach, with the
    worker's steps interleaved in any way: when the call returns [mReset] is
    [true] and the worker is not parked; and if no expiry of the worker fell
    between the store of 0 and the return, [mExpired] is 0 and [Expired()]
    returns [false].  With the mutex free the call can run to its return. *)
Theorem Reset_sets_zeroes_notifies :
  (forall s s',
      pcO s = O_ResetLock -> step L_Owner s = Some s' ->
      mMutex (obj s) = None
      /\ s' = goO O_ResetSetFlag (upd (set_mMutex (Some Owner)) s))
  /\ (forall s,
      pcO s = O_ResetSetFlag ->
      step L_Owner s = Some (goO O_ResetZero (upd (set_mReset true) s)))
  /\ (forall s,
      pcO s = O_ResetZero ->
      step L_Owner s = Some (goO O_ResetNotify (upd (set_mExpired 0) s)))
  /\ (forall s,
      pcO s = O_ResetNotify ->
      step L_Owner s = Some (goO O_ResetUnlock (notify_all s))
      /\ pcW (notify_all s) <> W_Waiting)
  /\ (forall s,
      pcO s = O_ResetUnlock ->
      step L_Owner s = Some (goO O_Idle (upd (set_mMutex None) s)))
  /\ (forall d n f pre s sched s1 s',
      run pre (AlarmClock_new d n f) = Some s ->
      pcO s = O_Idle ->
      forallb (fun l => negb (is_call l)) sched = true ->
      run (L_Call CallReset :: sched) s = Some s1 ->
      pcO s1 = O_ResetUnlock ->
      step L_Owner s1 = Some s' ->
      pcO s' = O_Idle
      /\ mReset (obj s') = true
      /\ pcW s' <> W_Waiting
      /\ (count_steps is_late_expiry sched (goO O_ResetLock s) = 0%nat ->
          mExpired (obj s') = 0
          /\ Expired (obj s') = false
          /\ call_result CallExpired s' = VBool false))
  /\ (forall s,
      pcO s = O_Idle -> mMutex (obj s) = None ->
      exists s',
        run whole_Reset s = Some s'
        /\ pcO s' = O_Idle
        /\ mReset (obj s') = true
        /\ Expired (obj s') = false
        /\ pcW s' <> W_Waiting).
Proof.
  repeat match goal with |- _ /\ _ => split end.
  - intros s s' Hpc H. unfold step, step_owner in H. rewrite Hpc in H.
    destruct (mMutex (obj s)); [discriminate |]. inv H. split; reflexivity.
  - intros s Hpc. unfold step, step_owner. rewrite Hpc. reflexivity.
  - intros s Hpc. unfold step, step_owner. rewrite Hpc. reflexivity.
  - intros s Hpc. split.
    + unfold step, step_owner. rewrite Hpc. reflexivity.
    + unfold notify_all.
      destruct (pcW s) eqn:E; cbn; rewrite ?E; discriminate.
  - intros s Hpc. unfold step, step_owner. rewrite Hpc. reflexivity.
  - intros d n f pre s sched s1 s' Hpre Hidle Hsched Hrun Hpc1 Hret.
    pose proof (lock_inv_run pre _ s Hpre (lock_inv_new d n f)) as L.
    pose proof (begin_Reset s Hidle) as Hcall.
    simpl in Hrun. cbn in Hcall. rewrite Hcall in Hrun.
    assert (R0 : reset_inv (goO O_ResetLock s)).
    { split; [| exact I]. apply (lock_inv_step (L_Call CallReset) s _ Hcall L). }
    destruct (reset_inv_run sched _ s1 Hsched Hrun R0) as [_ R1].
    rewrite Hpc1 in R1. destruct R1 as [Rf Rw].
    unfold step, step_owner in Hret. rewrite Hpc1 in Hret. inv Hret.
    split; [reflexivity |]. split; [exact Rf |]. split; [exact Rw |].
    intros C.
    assert (Z0 : mExpired (obj s1) = 0).
    { apply (zero_inv_run sched _ s1 Hrun C).
      - intros Hz. discriminate Hz.
      - unfold zeroed. rewrite Hpc1. reflexivity. }
    split; [exact Z0 |]. unfold call_result, Expired. cbn.
    rewrite Z0. split; reflexivity.
  - intros s Hidle Hfree.
    destruct (whole_Reset_effect s Hidle Hfree) as [s' [Hrun [H1 [H2 [H3 [H4 H5]]]]]].
    exists s'. split; [exact Hrun |]. split; [exact H1 |]. split; [exact H3 |].
    split; [| exact H5]. unfold Expired. rewrite H4. reflexivity.
Qed.

(** [Reset] called after an expiry, with the worker parked: [Expired()]
    is [true] before the call and [false] when it returns, and the worker
    has been woken. *)
Lemma Reset_sets_zeroes_notifies_example :
  Expired (obj (after until_parked (AlarmClock_new microseconds 0 None)))
    = true
  /\ pcW (after until_parked (AlarmClock_new microseconds 0 None))
     = W_Waiting
  /\ run (until_parked ++ whole_Reset) (AlarmClock_new microseconds 0 None)
     = Some (after (until_parked ++ whole_Reset)
               (AlarmClock_new microseconds 0 None))
  /\ pcW (after (until_parked ++ whole_Reset)
            (AlarmClock_new microseconds 0 None)) = W_Woken
  /\ mReset (obj (after (until_parked ++ whole_Reset)
                    (AlarmClock_new microseconds 0 None))) = true
  /\ Expired (obj (after (until_parked ++ whole_Reset)
                     (AlarmClock_new microseconds 0 None))) = false.
Proof.
  split; [vm_compute; reflexivity |]. split; [vm_compute; reflexivity |].
  split; [vm_compute; reflexivity |]. split; [vm_compute; reflexivity |].
  refine ((fun H => conj (proj1 (proj2 H))
                      (proj1 (proj2 (proj2 (proj2 (proj2 H)) _))))
            (proj1 (proj2 (proj2 (proj2 (proj2 (proj2
               Reset_sets_zeroes_notifies)))))
               microseconds 0 None until_parked
               (after until_parked (AlarmClock_new microseconds 0 None))
               [L_Owner; L_Owner; L_Owner; L_Owner]
               (after (until_parked ++
                         [L_Call CallReset; L_Owner; L_Owner; L_Owner; L_Owner])
                  (AlarmClock_new microseconds 0 None))
               (after (until_parked ++ whole_Reset)
                  (AlarmClock_new microseconds 0 None))
               _ _ _ _ _ _));
    vm_compute; reflexivity.
Defined.

(** ** The destructor *)

(** With the destructor in [join] and the worker parked, neither thread
    can take a step: all that can still happen is a call of an accessor,
    which changes nothing. *)
Lemma join_of_parked_worker_blocks (l : Label) (s s' : Sys) :
  is_spurious l = false ->
  pcO s = O_Join -> pcW s = W_Waiting ->
  step l s = Some s' -> s' = s.
Proof.
  intros Hl Ho Hw H. destruct l as [| | c |]; cbn in *.
  - unfold step_worker in H. rewrite Hw in H. discriminate.
  - discriminate.
  - destruct c; cbn in H; rewrite ?Ho in H; congruence.
  - unfold step_owner in H. rewrite Ho, Hw in H. discriminate.
Qed.

Lemma stuck_inv_step (l : Label) (s s' : Sys) :
  is_spurious l = false ->
  step l s = Some s' -> stuck_inv s -> stuck_inv s'.
Proof.
  intros Hl H [Hw [Hj Ho]].
  step_inv H; cbn in *; try discriminate;
    try (destruct Ho as [Ho | [[Ho _] | Ho]]; discriminate);
    unfold stuck_inv; cbn; repeat split; auto.
  unfold should_join in *. cbn in *.
  destruct Ho as [Ho | [[_ Ho] | Ho]]; try discriminate.
  subst. discriminate.
Qed.

(** The destructor begun while the worker is parked never returns, however
    the two threads are scheduled, unless the wait wakes by itself. *)
Lemma destructor_blocks_when_parked (sched : list Label) :
  forall s s',
    forallb (fun l => negb (is_spurious l)) sched = true ->
    stuck_inv s ->
    run sched s = Some s' ->
    stuck_inv s'.
Proof.
  induction sched as [| l sched IH]; intros s s' C I Hrun.
  - simpl in Hrun. inv Hrun. exact I.
  - simpl in Hrun, C. apply andb_true_iff in C. destruct C as [C1 C2].
    apply negb_true_iff in C1.
    destruct (step l s) as [s1 |] eqn:E; [| discriminate].
    apply (IH s1 s' C2); [| exact Hrun].
    apply (stuck_inv_step l s s1 C1 E I).
Qed.

(** C1.  The destructor stores [true] to [mExit] and joins, but it never
    notifies [mCondition].  Take any state a constructed object can reach in
    which the worker is parked at line 92 (its countdown has completed and
    no [Reset] has followed) and the owner is idle.  The destructor run from
    there comes to [join] with the worker still parked, and there neither
    thread has a step left; and however the threads are scheduled from the
    parked state, as long as the wait does not wake by itself, the
    destructor does not return. *)
Theorem destructor_deadlocks_when_worker_parked
    (d : Duration) (n : Z) (f : option (nat -> Z -> Z))
    (pre : list Label) (s : Sys) :
  run pre (AlarmClock_new d n f) = Some s ->
  pcO s = O_Idle ->
  pcW s = W_Waiting ->
  (exists s1,
      run destroy_until_join s = Some s1
      /\ mExit (obj s1) = true
      /\ pcO s1 = O_Join
      /\ pcW s1 = W_Waiting
      /\ step L_Worker s1 = None
      /\ step L_Owner s1 = None
      /\ (forall l s2, is_spurious l = false -> step l s1 = Some s2 -> s2 = s1))
  /\ (forall sched s',
      forallb (fun l => negb (is_spurious l)) sched = true ->
      run (L_Call CallDestroy :: sched) s = Some s' ->
      pcO s' <> O_Destroyed /\ pcW s' = W_Waiting).
Proof.
  intros Hpre Ho Hw.
  assert (Hj : joinable (obj s) = true).
  { destruct (run_invariant join_inv join_inv_step pre _ s Hpre
                (join_inv_new d n f)) as [J _].
    apply J. rewrite Ho. discriminate. }
  split.
  - destruct s as [[me ms mx mr k1 k2 k3 sf j mm] pw po c].
    cbn in Ho, Hw, Hj. subst po pw j.
    eexists. split; [reflexivity |].
    split; [reflexivity |]. split; [reflexivity |]. split; [reflexivity |].
    split; [reflexivity |]. split; [reflexivity |].
    intros l s2 Hl. apply join_of_parked_worker_blocks; [exact Hl | |]; reflexivity.
  - intros sched s' C Hrun. simpl in Hrun. rewrite Ho in Hrun.
    assert (I : stuck_inv (goO O_DtorSetExit s)).
    { split; [exact Hw |]. split; [exact Hj |]. left. reflexivity. }
    destruct (destructor_blocks_when_parked sched _ s' C I Hrun)
      as [Hw' [_ Ho']].
    split; [| exact Hw'].
    destruct Ho' as [Ho' | [[Ho' _] | Ho']]; rewrite Ho'; discriminate.
Qed.

(** An object with a zero duration: the countdown completes at once, the
    worker parks, and the destructor blocks in [join]. *)
Lemma destructor_deadlocks_after_expiry :
  exists s1,
    run (until_parked ++ destroy_until_join)
      (AlarmClock_new microseconds 0 None) = Some s1
    /\ Expired (obj s1) = true
    /\ mExit (obj s1) = true
    /\ pcO s1 = O_Join
    /\ pcW s1 = W_Waiting
    /\ step L_Worker s1 = None
    /\ step L_Owner s1 = None.
Proof.
  destruct (destructor_deadlocks_when_worker_parked microseconds 0 None
              until_parked
              (after until_parked (AlarmClock_new microseconds 0 None)))
    as [[s1 [Hrun [He [Ho [Hw [Sw [So _]]]]]]] _].
  - vm_compute; reflexivity.
  - vm_compute; reflexivity.
  - vm_compute; reflexivity.
  - exists s1. split.
    + rewrite run_app.
      replace (run until_parked (AlarmClock_new microseconds 0 None))
        with (Some (after until_parked (AlarmClock_new microseconds 0 None)))
        by (vm_compute; reflexivity).
      exact Hrun.
    + split.
      * assert (E : run destroy_until_join
                      (after until_parked (AlarmClock_new microseconds 0 None))
                    = Some (after (until_parked ++ destroy_until_join)
                              (AlarmClock_new microseconds 0 None)))
          by (vm_compute; reflexivity).
        rewrite E in Hrun. inv Hrun. vm_compute; reflexivity.
      * repeat split; assumption.
Defined.



(** ** [SleepUs] as steps of the worker *)

(** Run alone, with the two flags as they are in [s], the worker's steps
    through the inlined loop end at line 77 with the value [SleepUs]
    returns. *)
Lemma SleepUs_steps_agree (fuel : nat) :
  forall (s : Sys) (i : Z) (slept : nat) (r : Z) (n : nat),
    pcW s = W_SleepTest i ->
    SleepUs_loop fuel (fun _ => (mReset (obj s), mExit (obj s)))
      (kSleepTimeUsCount (obj s)) i slept = Some (r, n) ->
    exists k, run (repeat L_Worker k) s = Some (goW (W_AfterSleep r) s).
Proof.
  induction fuel as [| fuel IH]; intros s i slept r n Hpc H.
  - discriminate H.
  - simpl in H.
    destruct (i <? kSleepTimeUsCount (obj s)) eqn:Hlt.
    + destruct (mReset (obj s)) eqn:Hr; simpl in H.
      * inv H. exists 2%nat. simpl. unfold step_worker at 1.
        rewrite Hpc, Hlt. unfold step_worker. cbn. rewrite Hr. reflexivity.
      * destruct (mExit (obj s)) eqn:He.
        { inv H. exists 3%nat. simpl. unfold step_worker at 1.
          rewrite Hpc, Hlt. unfold step_worker at 1. cbn. rewrite Hr.
          unfold step_worker. cbn. rewrite He. reflexivity. }
        { assert (H' : SleepUs_loop fuel
                         (fun _ => (mReset (obj (goW (W_SleepTest (to_int (i + 1))) s)),
                                    mExit (obj (goW (W_SleepTest (to_int (i + 1))) s))))
                         (kSleepTimeUsCount (obj (goW (W_SleepTest (to_int (i + 1))) s)))
                         (to_int (i + 1)) (S slept) = Some (r, n))
            by (cbn; rewrite Hr, He; exact H).
          destruct (IH (goW (W_SleepTest (to_int (i + 1))) s)
                      (to_int (i + 1)) (S slept) r n eq_refl H') as [k Hk].
          exists (3 + k)%nat. simpl. unfold step_worker at 1.
          rewrite Hpc, Hlt. unfold step_worker at 1. cbn. rewrite Hr.
          unfold step_worker at 1. cbn. rewrite He.
          exact Hk. }
    + inv H. exists 1%nat. simpl. unfold step_worker.
      rewrite Hpc, Hlt. reflexivity.
Qed.

(** * Further properties *)

(** ** The configured duration *)

Lemma to_uint_small (z : Z) : 0 <= z < UINT_MOD -> to_uint z = z.
Proof. intros H. unfold to_uint. apply Z.mod_small. exact H. Qed.

Lemma to_uint_range (z : Z) : 0 <= to_uint z < UINT_MOD.
Proof. unfold to_uint, UINT_MOD. apply Z.mod_pos_bound. lia. Qed.

Lemma ConvertToMicroseconds_scale (d : Duration) (n : Z) :
  ConvertToMicroseconds d n = n * us_per_tick d.
Proof.
  unfold ConvertToMicroseconds, duration_cast.
  destruct d; cbn [ticks_per_second us_per_tick].
  - rewrite Z.quot_mul by lia. lia.
  - replace (n * 1000000) with (n * 1000 * 1000) by lia.
    rewrite Z.quot_mul by lia. reflexivity.
  - rewrite Z.quot_1_r. reflexivity.
Qed.

Lemma kSleepTimeUsCount_new (d : Duration) (n : Z)
    (f : option (nat -> Z -> Z)) :
  kSleepTimeUsCount (obj (AlarmClock_new d n f)) = to_uint (n * us_per_tick d).
Proof.
  cbn [AlarmClock_new obj kSleepTimeUsCount].
  unfold ConvertToMicrosecondsCount.
  fold (ConvertToMicroseconds d n). rewrite ConvertToMicroseconds_scale.
  reflexivity.
Qed.

(** X4.  The microsecond count the constructor stores is the duration in
    microseconds reduced modulo 2^32: it is the true count exactly when that
    count is below 2^32, and smaller than the true count otherwise (more
    than 4294 seconds, or 4294967 milliseconds, wrap around). *)
Theorem kSleepTimeUsCount_wraps (d : Duration) (n : Z)
    (f : option (nat -> Z -> Z)) :
  0 <= n < UINT_MOD ->
  kSleepTimeUsCount (obj (AlarmClock_new d n f)) = (n * us_per_tick d) mod 2 ^ 32
  /\ (n * us_per_tick d < 2 ^ 32 ->
      kSleepTimeUsCount (obj (AlarmClock_new d n f)) = n * us_per_tick d)
  /\ (2 ^ 32 <= n * us_per_tick d ->
      kSleepTimeUsCount (obj (AlarmClock_new d n f)) < n * us_per_tick d).
Proof.
  intros Hn. rewrite kSleepTimeUsCount_new.
  assert (Hp : 0 <= n * us_per_tick d) by (destruct d; cbn; lia).
  split; [reflexivity |]. split.
  - intros Hlt. apply to_uint_small. unfold UINT_MOD. lia.
  - intros Hge. pose proof (to_uint_range (n * us_per_tick d)) as R.
    unfold UINT_MOD in R. lia.
Qed.

(** 4295 seconds: 4295000000 microseconds are stored as 32704. *)
Lemma kSleepTimeUsCount_wraps_example :
  kSleepTimeUsCount (obj (AlarmClock_new seconds 4295 None)) = 32704
  /\ kSleepTimeUsCount (obj (AlarmClock_new seconds 4294 None)) = 4294000000.
Proof.
  split.
  - rewrite (proj1 (kSleepTimeUsCount_wraps seconds 4295 None
                      ltac:(unfold UINT_MOD; lia))).
    reflexivity.
  - vm_compute. reflexivity.
Defined.

(** X5.  The millisecond count the constructor stores: as long as the
    duration in microseconds is below 2^32, it is that duration divided by
    1000 and rounded down, so it is the microsecond count divided by 1000,
    and a duration of less than a millisecond is stored as 0. *)
Theorem kSleepTimeMsCount_truncates (d : Duration) (n : Z)
    (f : option (nat -> Z -> Z)) :
  0 <= n < UINT_MOD ->
  n * us_per_tick d < 2 ^ 32 ->
  kSleepTimeMsCount (obj (AlarmClock_new d n f)) = (n * us_per_tick d) / 1000
  /\ kSleepTimeMsCount (obj (AlarmClock_new d n f))
     = kSleepTimeUsCount (obj (AlarmClock_new d n f)) / 1000
  /\ (n * us_per_tick d < 1000 ->
      kSleepTimeMsCount (obj (AlarmClock_new d n f)) = 0).
Proof.
  intros Hn Hlt.
  assert (E : kSleepTimeMsCount (obj (AlarmClock_new d n f))
              = (n * us_per_tick d) / 1000).
  { cbn [AlarmClock_new obj kSleepTimeMsCount].
    unfold ConvertToMillisecondsCount, duration_cast.
    destruct d; cbn [ticks_per_second us_per_tick] in *.
    - rewrite Z.mul_1_r.
      replace (n * 1000) with (1000 * n) by lia.
      replace 1000000 with (1000 * 1000) by lia.
      rewrite Z.quot_mul_cancel_l by lia.
      rewrite Z.quot_div_nonneg by lia.
      apply to_uint_small. unfold UINT_MOD in *.
      pose proof (Z.div_le_upper_bound n 1000 n ltac:(lia) ltac:(lia)).
      pose proof (Z.div_pos n 1000 ltac:(lia) ltac:(lia)). lia.
    - rewrite Z.quot_mul by lia. rewrite Z.div_mul by lia.
      apply to_uint_small. exact Hn.
    - rewrite Z.quot_1_r.
      replace (n * 1000000) with (n * 1000 * 1000) by lia.
      rewrite Z.div_mul by lia.
      apply to_uint_small. unfold UINT_MOD. lia. }
  split; [exact E |]. split.
  - rewrite E, kSleepTimeUsCount_new, to_uint_small; [reflexivity |].
    unfold UINT_MOD. destruct d; cbn in *; lia.
  - intros Hsmall. rewrite E. apply Z.div_small.
    split; [destruct d; cbn; lia | exact Hsmall].
Qed.

(** 999 microseconds are 0 milliseconds. *)
Lemma kSleepTimeMsCount_truncates_example :
  kSleepTimeMsCount (obj (AlarmClock_new microseconds 999 None)) = 0
  /\ kSleepTimeUsCount (obj (AlarmClock_new microseconds 999 None)) = 999.
Proof.
  split.
  - apply (kSleepTimeMsCount_truncates microseconds 999 None);
      unfold UINT_MOD; cbn; lia.
  - vm_compute. reflexivity.
Defined.

Lemma config_step (l : Label) (s s' : Sys) :
  step l s = Some s' -> config (obj s') = config (obj s).
Proof. intros H. step_inv H; reflexivity. Qed.

Lemma config_run (sched : list Label) (s s' : Sys) :
  run sched s = Some s' -> config (obj s') = config (obj s).
Proof.
  intros Hrun.
  apply (run_invariant (fun x => config (obj x) = config (obj s))
           (fun l a b H P => eq_trans (config_step l a b H) P)
           sched s s' Hrun).
  reflexivity.
Qed.

Lemma to_int_of_uint (z : Z) :
  0 <= z < UINT_MOD ->
  to_int z = if z <? 2 ^ 31 then z else z - 2 ^ 32.
Proof.
  intros H. unfold to_int, UINT_MOD in *.
  destruct (Z.ltb_spec z (2 ^ 31)) as [Hlt | Hge].
  - rewrite Z.mod_small; lia.
  - replace (z + 2 ^ 31) with ((z - 2 ^ 31) + 1 * 2 ^ 32) by lia.
    rewrite Z.mod_add by lia. rewrite Z.mod_small; lia.
Qed.

(** X6.  The configuration never changes: in every state a constructed
    object reaches, [SleepTimeUs()] and [SleepTimeMs()] return what they
    returned right after construction.  [SleepTimeUs()] returns an [int]:
    it is the stored microsecond count when that is below 2^31, and the
    count minus 2^32, a negative number, when it is 2^31 or more. *)
Theorem SleepTime_getters_constant (d : Duration) (n : Z)
    (f : option (nat -> Z -> Z)) (sched : list Label) (s : Sys) :
  run sched (AlarmClock_new d n f) = Some s ->
  call_result CallSleepTimeUs s
    = call_result CallSleepTimeUs (AlarmClock_new d n f)
  /\ call_result CallSleepTimeMs s
     = call_result CallSleepTimeMs (AlarmClock_new d n f)
  /\ mSleepFunction (obj s) = mSleepFunction (obj (AlarmClock_new d n f))
  /\ (kSleepTimeUsCount (obj s) < 2 ^ 31 ->
      SleepTimeUs (obj s) = kSleepTimeUsCount (obj s))
  /\ (2 ^ 31 <= kSleepTimeUsCount (obj s) ->
      SleepTimeUs (obj s) = kSleepTimeUsCount (obj s) - 2 ^ 32
      /\ SleepTimeUs (obj s) < 0).
Proof.
  intros Hrun. pose proof (config_run sched _ s Hrun) as C.
  unfold config in C. inversion C as [[C1 C2 C3 C4]].
  assert (R : 0 <= kSleepTimeUsCount (obj s) < UINT_MOD).
  { rewrite C3. cbn [AlarmClock_new obj kSleepTimeUsCount].
    apply to_uint_range. }
  unfold call_result, SleepTimeUs, SleepTimeMs. rewrite C2, C3.
  split; [reflexivity |]. split; [reflexivity |]. split; [exact C4 |].
  rewrite <- C3. rewrite (to_int_of_uint _ R). unfold UINT_MOD in R. split.
  - intros Hlt. destruct (Z.ltb_spec (kSleepTimeUsCount (obj s)) (2 ^ 31)); lia.
  - intros Hge. destruct (Z.ltb_spec (kSleepTimeUsCount (obj s)) (2 ^ 31)); lia.
Qed.

(** Three billion microseconds read back as a negative number, before and
    after a reset and an expiry. *)
Lemma SleepTime_getters_constant_example :
  SleepTimeUs (obj (AlarmClock_new microseconds 3000000000 (Some (fun _ _ => 0))))
    = -1294967296
  /\ call_result CallSleepTimeUs
       (after (whole_Reset ++ one_iteration)
          (AlarmClock_new microseconds 3000000000 (Some (fun _ _ => 0))))
     = VInt (-1294967296).
Proof.
  split; [vm_compute; reflexivity |].
  rewrite (proj1 (SleepTime_getters_constant microseconds 3000000000
                    (Some (fun _ _ => 0)) (whole_Reset ++ one_iteration)
                    (after (whole_Reset ++ one_iteration)
                       (AlarmClock_new microseconds 3000000000
                          (Some (fun _ _ => 0))))
                    ltac:(vm_compute; reflexivity))).
  vm_compute. reflexivity.
Defined.

(** ** Teardown *)

Lemma teardown_inv_step (l : Label) (s s' : Sys) :
  step l s = Some s' -> teardown_inv s -> teardown_inv s'.
Proof.
  intros H [T1 [T2 T3]].
  step_inv H; unfold teardown_inv, should_join in *; cbn in *;
    try (split; [assumption | split; [assumption | assumption]]);
    try (split; [assumption | split; [assumption |]]; intros E;
         try discriminate; specialize (T3 E); discriminate);
    try (repeat split; intros; congruence).
  subst. discriminate.
Qed.

Lemma teardown_inv_new (d : Duration) (n : Z) (f : option (nat -> Z -> Z)) :
  teardown_inv (AlarmClock_new d n f).
Proof. repeat split. cbn. discriminate. Qed.

Lemma teardown_inv_run (d : Duration) (n : Z) (f : option (nat -> Z -> Z))
    (sched : list Label) (s : Sys) :
  run sched (AlarmClock_new d n f) = Some s -> teardown_inv s.
Proof.
  intros Hrun.
  apply (run_invariant teardown_inv teardown_inv_step sched _ s Hrun).
  apply teardown_inv_new.
Qed.

(** X7.  The destructor never returns before the worker: in every state a
    constructed object reaches, if the destructor has returned then the
    worker function has returned and the thread has been joined.  And
    [mExit] is [true] exactly from line 37 of the destructor on: nothing
    else raises it and nothing lowers it. *)
Theorem destructor_returns_after_worker (d : Duration) (n : Z)
    (f : option (nat -> Z -> Z)) (sched : list Label) (s : Sys) :
  run sched (AlarmClock_new d n f) = Some s ->
  (pcO s = O_Destroyed -> pcW s = W_Done /\ joinable (obj s) = false)
  /\ (mExit (obj s) = true <->
      pcO s = O_DtorCheck \/ pcO s = O_Join \/ pcO s = O_Destroyed).
Proof.
  intros Hrun. destruct (teardown_inv_run d n f sched s Hrun) as [T1 [T2 T3]].
  split.
  - intros E. split; [exact (T3 E) |]. rewrite T2, E. reflexivity.
  - rewrite T1. destruct (pcO s); split; intros H; try discriminate;
      try reflexivity; auto;
      destruct H as [H | [H | H]]; discriminate.
Qed.

(** A destructor that runs while the worker sleeps, and returns. *)
Lemma destructor_returns_after_worker_example :
  pcO (after ([L_Worker; L_Worker] ++ destroy_until_join
              ++ [L_Worker; L_Worker; L_Worker; L_Owner])
         (AlarmClock_new seconds 1 None)) = O_Destroyed
  /\ pcW (after ([L_Worker; L_Worker] ++ destroy_until_join
                 ++ [L_Worker; L_Worker; L_Worker; L_Owner])
            (AlarmClock_new seconds 1 None)) = W_Done.
Proof.
  split; [vm_compute; reflexivity |].
  apply (proj1 (destructor_returns_after_worker seconds 1 None
                  ([L_Worker; L_Worker] ++ destroy_until_join
                   ++ [L_Worker; L_Worker; L_Worker; L_Owner])
                  _ ltac:(vm_compute; reflexivity))).
  vm_compute. reflexivity.
Defined.

(** ** The expiry counter *)

Lemma mExpired_range_step (l : Label) (s s' : Sys) :
  step l s = Some s' ->
  0 <= mExpired (obj s) < UINT_MOD -> 0 <= mExpired (obj s') < UINT_MOD.
Proof.
  intros H R. step_inv H; cbn in *; try assumption;
    try apply to_uint_range; unfold UINT_MOD; lia.
Qed.

Lemma mExpired_range (d : Duration) (n : Z) (f : option (nat -> Z -> Z))
    (sched : list Label) (s : Sys) :
  run sched (AlarmClock_new d n f) = Some s ->
  0 <= mExpired (obj s) < UINT_MOD.
Proof.
  intros Hrun.
  apply (run_invariant (fun x => 0 <= mExpired (obj x) < UINT_MOD)
           mExpired_range_step sched _ s Hrun).
  cbn. unfold UINT_MOD. lia.
Qed.

Lemma mExpired_account_step (l : Label) (s s' : Sys) :
  step l s = Some s' -> is_zeroing l s = false ->
  to_uint (mExpired (obj s'))
  = to_uint (mExpired (obj s) + (if is_expiry l s then 1 else 0)).
Proof.
  intros H Z0. unfold to_uint.
  step_inv H; cbn in *; try discriminate; rewrite ?Z.add_0_r;
    try reflexivity;
    try (match goal with E : (_ =? 0) = _ |- _ => rewrite E end);
    rewrite ?Z.add_0_r; try reflexivity.
  all: unfold to_uint; rewrite Z.mod_mod by (unfold UINT_MOD; lia);
    reflexivity.
Qed.

Lemma mExpired_account_run (sched : list Label) :
  forall s s',
    run sched s = Some s' ->
    count_steps is_zeroing sched s = 0%nat ->
    to_uint (mExpired (obj s'))
    = to_uint (mExpired (obj s) + Z.of_nat (count_steps is_expiry sched s)).
Proof.
  induction sched as [| l sched IH]; intros s s' Hrun C.
  - simpl in Hrun. inv Hrun. simpl. rewrite Z.add_0_r. reflexivity.
  - simpl in Hrun, C |- *.
    destruct (step l s) as [s1 |] eqn:E; [| discriminate].
    destruct (is_zeroing l s) eqn:K; [discriminate |].
    rewrite (IH s1 s' Hrun C). unfold to_uint.
    rewrite <- Zplus_mod_idemp_l.
    fold (to_uint (mExpired (obj s1))).
    rewrite (mExpired_account_step l s s1 E K). unfold to_uint.
    rewrite Zplus_mod_idemp_l. f_equal.
    destruct (is_expiry l s); lia.
Qed.

(** X8.  [mExpired] counts the expiries since the last store of 0 by
    [Reset], modulo 2^32: over any stretch of a run of a constructed object
    that contains no such store, its final value is its initial value plus
    the number of expiries in the stretch, reduced modulo 2^32; it is always
    within [0, 2^32).  So [Expired()] is [true] after [k] expiries without a
    reset unless [k] is a multiple of 2^32. *)
Theorem mExpired_counts_expiries (d : Duration) (n : Z)
    (f : option (nat -> Z -> Z)) (pre sched : list Label) (s s' : Sys) :
  run pre (AlarmClock_new d n f) = Some s ->
  run sched s = Some s' ->
  count_steps is_zeroing sched s = 0%nat ->
  mExpired (obj s')
  = (mExpired (obj s) + Z.of_nat (count_steps is_expiry sched s)) mod 2 ^ 32
  /\ 0 <= mExpired (obj s') < 2 ^ 32.
Proof.
  intros Hpre Hrun C.
  assert (R : 0 <= mExpired (obj s') < UINT_MOD).
  { apply (mExpired_range d n f (pre ++ sched)).
    rewrite run_app, Hpre. exact Hrun. }
  split; [| exact R].
  rewrite <- (to_uint_small _ R).
  apply (mExpired_account_run sched s s' Hrun C).
Qed.

(** Two expiries after a reset: the counter reads 2. *)
Lemma mExpired_counts_expiries_example :
  mExpired (obj (after (whole_Reset ++ one_iteration
                        ++ [L_Worker; L_Worker; L_Worker])
                   (AlarmClock_new seconds 10 (Some (fun _ _ => 0))))) = 2.
Proof.
  rewrite (proj1 (mExpired_counts_expiries seconds 10 (Some (fun _ _ => 0))
                    whole_Reset
                    (one_iteration ++ [L_Worker; L_Worker; L_Worker])
                    (after whole_Reset
                       (AlarmClock_new seconds 10 (Some (fun _ _ => 0))))
                    (after (whole_Reset ++ one_iteration
                            ++ [L_Worker; L_Worker; L_Worker])
                       (AlarmClock_new seconds 10 (Some (fun _ _ => 0))))
                    ltac:(vm_compute; reflexivity)
                    ltac:(vm_compute; reflexivity)
                    ltac:(vm_compute; reflexivity))).
  vm_compute. reflexivity.
Defined.

(** ** Resets and wake-ups *)

Lemma reachable_inv (d : Duration) (n : Z) (f : option (nat -> Z -> Z))
    (sched : list Label) (s : Sys) :
  run sched (AlarmClock_new d n f) = Some s ->
  lock_inv s /\ teardown_inv s.
Proof.
  intros Hrun. split.
  - apply (lock_inv_run sched _ s Hrun). apply lock_inv_new.
  - apply (teardown_inv_run d n f sched s Hrun).
Qed.

(** X3.  [Reset] does not undo an expiry that has been decided but not yet
    counted.  From any state a constructed object reaches in which the sleep
    function has returned 0 and the worker has not yet executed line 79,
    with the owner idle: [Reset] runs to its return; the worker then
    executes line 79, finds [mReset] set at line 86, skips the wait, clears
    the flag and starts the next countdown with [mExpired] at 1 and
    [Expired()] already [true]. *)
Theorem Reset_before_pending_expiry (d : Duration) (n : Z)
    (f : option (nat -> Z -> Z)) (pre : list Label) (s : Sys) :
  run pre (AlarmClock_new d n f) = Some s ->
  pcW s = W_AfterSleep 0 ->
  pcO s = O_Idle ->
  exists s1 s',
    run whole_Reset s = Some s1
    /\ Expired (obj s1) = false
    /\ run [L_Worker; L_Worker; L_Worker; L_Worker; L_Worker; L_Worker] s1
       = Some s'
    /\ pcW s' = W_CallSleep
    /\ pcO s' = O_Idle
    /\ mReset (obj s') = false
    /\ mExpired (obj s') = 1
    /\ Expired (obj s') = true.
Proof.
  intros Hpre Hw Ho.
  destruct (reachable_inv d n f pre s Hpre) as [[Lm _] [Hx _]].
  destruct s as [[me ms mx mr k1 k2 k3 sf j mm] pw po c].
  cbn in Hw, Ho, Lm, Hx. subst pw po. cbn in Lm, Hx. subst mm mx.
  eexists. eexists. split; [vm_compute; reflexivity |].
  split; [reflexivity |]. split; [vm_compute; reflexivity |].
  repeat split.
Qed.

(** An injected function that returns 0 at once, and a [Reset] right after
    its first return. *)
Lemma Reset_before_pending_expiry_example :
  exists s',
    run ([L_Worker] ++ whole_Reset
         ++ [L_Worker; L_Worker; L_Worker; L_Worker; L_Worker; L_Worker])
      (AlarmClock_new seconds 10 (Some (fun _ _ => 0))) = Some s'
    /\ pcW s' = W_CallSleep
    /\ Expired (obj s') = true.
Proof.
  destruct (Reset_before_pending_expiry seconds 10 (Some (fun _ _ => 0))
              [L_Worker]
              (after [L_Worker]
                 (AlarmClock_new seconds 10 (Some (fun _ _ => 0))))
              ltac:(vm_compute; reflexivity) ltac:(vm_compute; reflexivity)
              ltac:(vm_compute; reflexivity))
    as [s1 [s' [H1 [_ [H2 [Hw [_ [_ [_ He]]]]]]]]].
  exists s'. split; [| split; [exact Hw | exact He]].
  rewrite run_app.
  replace (run [L_Worker] (AlarmClock_new seconds 10 (Some (fun _ _ => 0))))
    with (Some (after [L_Worker]
                  (AlarmClock_new seconds 10 (Some (fun _ _ => 0)))))
    by (vm_compute; reflexivity).
  rewrite run_app, H1. exact H2.
Defined.

Lemma run_whole_Reset (s : Sys) :
  pcO s = O_Idle -> mMutex (obj s) = None ->
  run whole_Reset s = Some (after_Reset s).
Proof.
  destruct s as [[me ms mx mr k1 k2 k3 sf j mm] pw po c]. cbn.
  intros -> ->. unfold notify_all, after_Reset. cbn.
  destruct pw; reflexivity.
Qed.

Lemma after_Reset_twice (s : Sys) : after_Reset (after_Reset s) = after_Reset s.
Proof.
  destruct s as [[me ms mx mr k1 k2 k3 sf j mm] pw po c].
  unfold after_Reset. cbn. destruct pw; reflexivity.
Qed.

(** X9.  Two calls of [Reset] in a row, with no step of the worker in
    between, leave the object in the state one call leaves it in. *)
Theorem Reset_twice (s : Sys) :
  pcO s = O_Idle -> mMutex (obj s) = None ->
  run (whole_Reset ++ whole_Reset) s = run whole_Reset s
  /\ run whole_Reset s <> None.
Proof.
  intros Ho Hm. rewrite run_app, (run_whole_Reset s Ho Hm).
  split; [| discriminate].
  rewrite run_whole_Reset by reflexivity.
  rewrite after_Reset_twice. reflexivity.
Qed.

Lemma Reset_twice_example :
  run (whole_Reset ++ whole_Reset)
    (after until_parked (AlarmClock_new microseconds 0 None))
  = run whole_Reset
      (after until_parked (AlarmClock_new microseconds 0 None)).
Proof.
  apply (Reset_twice
           (after until_parked (AlarmClock_new microseconds 0 None)));
    vm_compute; reflexivity.
Defined.

(** X10.  A [Reset] while the worker is parked restarts the countdown: from
    any state a constructed object reaches with the worker parked at
    line 92 and the owner idle, the call followed by four steps of the
    worker has the worker about to call the sleep function again, with
    [mReset] consumed, the mutex free and [Expired()] [false]. *)
Theorem Reset_restarts_parked_worker (d : Duration) (n : Z)
    (f : option (nat -> Z -> Z)) (pre : list Label) (s : Sys) :
  run pre (AlarmClock_new d n f) = Some s ->
  pcO s = O_Idle ->
  pcW s = W_Waiting ->
  exists s',
    run (whole_Reset ++ after_wakeup) s = Some s'
    /\ pcW s' = W_CallSleep
    /\ pcO s' = O_Idle
    /\ mReset (obj s') = false
    /\ mMutex (obj s') = None
    /\ Expired (obj s') = false.
Proof.
  intros Hpre Ho Hw.
  destruct (reachable_inv d n f pre s Hpre) as [[Lm _] [T1 _]].
  destruct s as [[me ms mx mr k1 k2 k3 sf j mm] pw po c].
  cbn in Ho, Hw, Lm, T1. subst po pw. cbn in Lm, T1. subst mm mx.
  eexists. split; [vm_compute; reflexivity |]. repeat split.
Qed.

Lemma Reset_restarts_parked_worker_example :
  exists s',
    run (whole_Reset ++ after_wakeup)
      (after until_parked (AlarmClock_new microseconds 0 None)) = Some s'
    /\ pcW s' = W_CallSleep
    /\ pcO s' = O_Idle
    /\ mReset (obj s') = false
    /\ mMutex (obj s') = None
    /\ Expired (obj s') = false.
Proof.
  apply (Reset_restarts_parked_worker microseconds 0 None until_parked);
    vm_compute; reflexivity.
Defined.

(** X11.  The wait of line 92 is not in a loop on a condition, so a wake-up
    without notification is taken for a notification.  From any state a
    constructed object reaches with the worker parked: if the owner is
    idle, the woken worker clears [mReset] and starts the next countdown
    although no [Reset] was called, and [mExpired] keeps its value; if the
    owner is blocked in [join], the woken worker sees [mExit] at line 95
    and returns, and the destructor returns. *)
Theorem spurious_wakeup_restarts_countdown (d : Duration) (n : Z)
    (f : option (nat -> Z -> Z)) (pre : list Label) (s : Sys) :
  run pre (AlarmClock_new d n f) = Some s ->
  pcW s = W_Waiting ->
  (pcO s = O_Idle ->
   exists s',
     run (L_Spurious :: after_wakeup) s = Some s'
     /\ pcW s' = W_CallSleep
     /\ mReset (obj s') = false
     /\ mExpired (obj s') = mExpired (obj s))
  /\ (pcO s = O_Join ->
      exists s',
        run (L_Spurious :: after_wakeup ++ [L_Owner]) s = Some s'
        /\ pcW s' = W_Done
        /\ pcO s' = O_Destroyed).
Proof.
  intros Hpre Hw.
  destruct (reachable_inv d n f pre s Hpre) as [[Lm _] [T1 _]].
  destruct s as [[me ms mx mr k1 k2 k3 sf j mm] pw po c].
  cbn in Hw, Lm, T1. subst pw. cbn in Lm.
  split; intros Ho; cbn in Ho; subst po; cbn in Lm, T1; subst mm mx;
    eexists; (split; [vm_compute; reflexivity |]); repeat split.
Qed.

(** After an expiry the worker is parked with [Expired()] [true]; a
    wake-up without notification starts the next countdown. *)
Lemma spurious_wakeup_restarts_countdown_example :
  exists s',
    run (L_Spurious :: after_wakeup)
      (after until_parked (AlarmClock_new microseconds 0 None)) = Some s'
    /\ pcW s' = W_CallSleep
    /\ mReset (obj s') = false
    /\ mExpired (obj s')
       = mExpired (obj (after until_parked
                          (AlarmClock_new microseconds 0 None))).
Proof.
  apply (proj1 (spurious_wakeup_restarts_countdown microseconds 0 None
                  until_parked
                  (after until_parked (AlarmClock_new microseconds 0 None))
                  ltac:(vm_compute; reflexivity)
                  ltac:(vm_compute; reflexivity))).
  vm_compute. reflexivity.
Defined.

(** X12.  [Reset] is never blocked for long: from any state a constructed
    object reaches with the owner idle, the worker holds the mutex only at
    lines 86 to 95 and gives it up within three steps of its own (none of
    them an expiry), after which the call runs to its return with [mReset]
    [true] and [Expired()] [false]. *)
Theorem Reset_blocked_at_most_three_steps (d : Duration) (n : Z)
    (f : option (nat -> Z -> Z)) (pre : list Label) (s : Sys) :
  run pre (AlarmClock_new d n f) = Some s ->
  pcO s = O_Idle ->
  exists k s',
    (k <= 3)%nat
    /\ run (repeat L_Worker k ++ whole_Reset) s = Some s'
    /\ count_steps is_expiry (repeat L_Worker k) s = 0%nat
    /\ pcO s' = O_Idle
    /\ mReset (obj s') = true
    /\ Expired (obj s') = false
    /\ (worker_holds (pcW s) = false -> k = 0%nat).
Proof.
  intros Hpre Ho.
  destruct (reachable_inv d n f pre s Hpre) as [[Lm _] _].
  destruct s as [[me ms mx mr k1 k2 k3 sf j mm] pw po c].
  cbn in Ho, Lm. subst po.
  destruct (worker_holds pw) eqn:Hh; cbn in Lm; subst mm.
  - destruct pw; try discriminate Hh.
    + destruct mr.
      * exists 3%nat. eexists. split; [lia |].
        split; [vm_compute; reflexivity |]. repeat split; discriminate.
      * exists 2%nat. eexists. split; [lia |].
        split; [vm_compute; reflexivity |]. repeat split; discriminate.
    + exists 1%nat. eexists. split; [lia |].
      split; [vm_compute; reflexivity |]. repeat split; discriminate.
    + exists 2%nat. eexists. split; [lia |].
      split; [vm_compute; reflexivity |]. repeat split; discriminate.
    + exists 1%nat. eexists. split; [lia |].
      split; [vm_compute; reflexivity |]. repeat split; discriminate.
  - exists 0%nat. eexists. split; [lia |].
    split; [apply run_whole_Reset; reflexivity |]. repeat split.
Qed.

(** The worker is at line 86 with the mutex when [Reset] is called. *)
Lemma Reset_blocked_at_most_three_steps_example :
  step L_Owner
    (after (L_Worker :: L_Worker :: L_Worker :: L_Worker
            :: L_Call CallReset :: nil)
       (AlarmClock_new microseconds 0 None)) = None
  /\ exists k s',
      (k <= 3)%nat
      /\ run (repeat L_Worker k ++ whole_Reset)
           (after [L_Worker; L_Worker; L_Worker; L_Worker]
              (AlarmClock_new microseconds 0 None)) = Some s'
      /\ Expired (obj s') = false.
Proof.
  split; [vm_compute; reflexivity |].
  destruct (Reset_blocked_at_most_three_steps microseconds 0 None
              [L_Worker; L_Worker; L_Worker; L_Worker]
              (after [L_Worker; L_Worker; L_Worker; L_Worker]
                 (AlarmClock_new microseconds 0 None))
              ltac:(vm_compute; reflexivity) ltac:(vm_compute; reflexivity))
    as [k [s' [Hk [Hrun [_ [_ [_ [He _]]]]]]]].
  exists k, s'. split; [exact Hk |]. split; [exact Hrun | exact He].
Defined.

(** ** How teardown ends *)

Lemma worker_rank_step (s : Sys) :
  joining_inv s -> (0 < worker_rank s)%nat ->
  exists s',
    step L_Worker s = Some s'
    /\ (worker_rank s' < worker_rank s)%nat
    /\ joining_inv s'.
Proof.
  intros [L [Ho Hx]] Hr.
  assert (K : forall s', step L_Worker s = Some s' ->
                         (worker_rank s' < worker_rank s)%nat ->
                         exists s'', step L_Worker s = Some s''
                                     /\ (worker_rank s'' < worker_rank s)%nat
                                     /\ joining_inv s'').
  { intros s' H R. exists s'. split; [exact H |]. split; [exact R |].
    split; [exact (lock_inv_step _ _ _ H L) |].
    split; [| exact (mExit_stays_up _ _ _ H Hx)].
    rewrite <- Ho. clear - H. remember L_Worker as l eqn:El.
    step_inv H; try discriminate El; reflexivity. }
  destruct L as [Lm _].
  destruct s as [[me ms mx mr k1 k2 k3 sf j mm] pw po c].
  cbn in Ho, Hx, Lm. subst po mx.
  unfold worker_rank in *. cbn [pcW obj mReset] in *.
  destruct pw; cbn in Lm; subst mm; try (exfalso; lia).
  - destruct sf as [| g]; (eapply K; [cbn; reflexivity | cbn]).
    + lia.
    + destruct (g c k3 =? 0); lia.
  - destruct (i <? k3) eqn:E;
      (eapply K; [cbn; rewrite E; reflexivity | cbn; lia]).
  - destruct mr; (eapply K; [cbn; reflexivity | cbn; lia]).
  - eapply K; [cbn; reflexivity | cbn; lia].
  - destruct (retVal =? 0) eqn:E;
      (eapply K; [cbn; rewrite E; reflexivity | cbn; rewrite ?E; lia]).
  - eapply K; [cbn; reflexivity | cbn; destruct mr; lia].
  - destruct mr; (eapply K; [cbn; reflexivity | cbn; lia]).
  - eapply K; [cbn; reflexivity | cbn; lia].
  - eapply K; [cbn; reflexivity | cbn; lia].
  - eapply K; [cbn; reflexivity | cbn; lia].
  - eapply K; [cbn; reflexivity | cbn; lia].
  - eapply K; [cbn; reflexivity | cbn; lia].
Qed.

Lemma worker_settles (n : nat) :
  forall s, joining_inv s -> (worker_rank s <= n)%nat ->
    exists k s',
      (k <= n)%nat
      /\ run (repeat L_Worker k) s = Some s'
      /\ worker_rank s' = 0%nat
      /\ joining_inv s'.
Proof.
  induction n as [| n IH]; intros s J R.
  - exists 0%nat, s. split; [lia |]. split; [reflexivity |].
    split; [lia | exact J].
  - destruct (worker_rank s) as [| r] eqn:E.
    + exists 0%nat, s. split; [lia |]. split; [reflexivity |].
      split; [exact E | exact J].
    + destruct (worker_rank_step s J ltac:(lia)) as [s1 [H1 [R1 J1]]].
      destruct (IH s1 J1 ltac:(lia)) as [k [s' [Hk [Hrun [R0 J']]]]].
      exists (S k), s'. split; [lia |]. split.
      * simpl. cbn in H1. rewrite H1. exact Hrun.
      * split; assumption.
Qed.

(** X13.  How teardown ends.  From any state a constructed object reaches
    with the destructor waiting in [join], the worker, within eight steps
    of its own, either returns, and then [join] and the destructor return,
    or parks at line 92, and then neither thread has a step left. *)
Theorem teardown_returns_or_deadlocks (d : Duration) (n : Z)
    (f : option (nat -> Z -> Z)) (pre : list Label) (s : Sys) :
  run pre (AlarmClock_new d n f) = Some s ->
  pcO s = O_Join ->
  exists k s',
    (k <= 8)%nat
    /\ run (repeat L_Worker k) s = Some s'
    /\ ((pcW s' = W_Done
         /\ exists s'', step L_Owner s' = Some s'' /\ pcO s'' = O_Destroyed)
        \/ (pcW s' = W_Waiting
            /\ step L_Worker s' = None /\ step L_Owner s' = None)).
Proof.
  intros Hpre Ho.
  destruct (reachable_inv d n f pre s Hpre) as [L [T1 _]].
  assert (J : joining_inv s).
  { split; [exact L |]. split; [exact Ho |]. rewrite T1, Ho. reflexivity. }
  assert (R : (worker_rank s <= 8)%nat).
  { unfold worker_rank. destruct (pcW s); try lia.
    - destruct (retVal =? 0); lia.
    - destruct (mReset (obj s)); lia. }
  destruct (worker_settles 8 s J R) as [k [s' [Hk [Hrun [R0 [_ [Ho' _]]]]]]].
  exists k, s'. split; [exact Hk |]. split; [exact Hrun |].
  unfold worker_rank in R0. unfold step, step_worker, step_owner.
  rewrite Ho'. destruct (pcW s') eqn:E; try discriminate R0.
  - destruct (retVal =? 0); discriminate.
  - destruct (mReset (obj s')); discriminate.
  - right. repeat split.
  - left. split; [reflexivity |]. eexists. split; reflexivity.
Qed.

(** A 10-second timer destroyed right after construction. *)
Lemma teardown_returns_or_deadlocks_example :
  exists k s',
    (k <= 8)%nat
    /\ run (repeat L_Worker k)
         (after destroy_until_join (AlarmClock_new seconds 10 None)) = Some s'
    /\ ((pcW s' = W_Done
         /\ exists s'', step L_Owner s' = Some s'' /\ pcO s'' = O_Destroyed)
        \/ (pcW s' = W_Waiting
            /\ step L_Worker s' = None /\ step L_Owner s' = None)).
Proof.
  apply (teardown_returns_or_deadlocks seconds 10 None destroy_until_join);
    vm_compute; reflexivity.
Defined.

(** ** No early expiry *)

Ltac bool_hyps :=
  repeat match goal with
    | H : ?b = _ |- context [?b] => rewrite H
    end;
  repeat match goal with
    | H : (_ <? _) = true |- _ => apply Z.ltb_lt in H
    | H : (_ <? _) = false |- _ => apply Z.ltb_ge in H
    | H : (_ =? _) = true |- _ => apply Z.eqb_eq in H
    | H : (_ =? _) = false |- _ => apply Z.eqb_neq in H
    end.

Section NoEarlyExpiry.

Variable t : Z.
Hypothesis t_fits : t <= INT_MAX.

Lemma SleepUs_inv_step (l : Label) (s s' : Sys) :
  step l s = Some s' -> SleepUs_inv t s ->
  SleepUs_inv t s'
  /\ sleeps_in_call t (pcW s')
     + (if is_expiry l s then Z.max 0 (t - 1) else 0)
     <= sleeps_in_call t (pcW s) + (if is_sleep l s then 1 else 0).
Proof.
  intros H [I1 [I2 I3]]. unfold INT_MAX in t_fits.
  step_inv H; unfold SleepUs_inv, is_expiry, is_sleep; cbn in *;
    try discriminate; subst; bool_hyps;
    rewrite ?to_int_small by (unfold INT_MAX; lia);
    repeat split; try reflexivity; try assumption; try exact I; try lia.
Qed.

Lemma sleeps_in_call_nonneg (s : Sys) :
  SleepUs_inv t s -> 0 <= sleeps_in_call t (pcW s).
Proof.
  intros [_ [_ I3]]. unfold sleeps_in_call.
  destruct (pcW s); try lia. destruct (retVal =? 0); lia.
Qed.

Lemma sleeps_pay_for_expiries (sched : list Label) :
  forall s s',
    run sched s = Some s' -> SleepUs_inv t s ->
    SleepUs_inv t s'
    /\ sleeps_in_call t (pcW s')
       + Z.max 0 (t - 1) * Z.of_nat (count_steps is_expiry sched s)
       <= sleeps_in_call t (pcW s) + Z.of_nat (count_steps is_sleep sched s).
Proof.
  induction sched as [| l sched IH]; intros s s' Hrun I.
  - simpl in Hrun. inv Hrun. simpl. split; [exact I | lia].
  - simpl in Hrun |- *.
    destruct (step l s) as [s1 |] eqn:E; [| discriminate].
    destruct (SleepUs_inv_step l s s1 E I) as [I1 B1].
    destruct (IH s1 s' Hrun I1) as [I' B'].
    split; [exact I' |].
    destruct (is_expiry l s), (is_sleep l s); lia.
Qed.

End NoEarlyExpiry.

(** X14.  With the default sleep function the timer does not expire early:
    for a microsecond count [t] up to [INT_MAX], in every run of a
    constructed object each expiry has been paid for by [t - 1] sleeps of
    one microsecond, so the run contains at least [(t - 1) * k] sleeps if it
    contains [k] expiries (resets and wake-ups only add sleeps). *)
Theorem expiries_need_sleeps (d : Duration) (n : Z) (sched : list Label)
    (s : Sys) :
  kSleepTimeUsCount (obj (AlarmClock_new d n None)) <= INT_MAX ->
  run sched (AlarmClock_new d n None) = Some s ->
  Z.max 0 (kSleepTimeUsCount (obj (AlarmClock_new d n None)) - 1)
  * Z.of_nat (count_steps is_expiry sched (AlarmClock_new d n None))
  <= Z.of_nat (count_steps is_sleep sched (AlarmClock_new d n None)).
Proof.
  intros Ht Hrun.
  set (t := kSleepTimeUsCount (obj (AlarmClock_new d n None))) in *.
  assert (I : SleepUs_inv t (AlarmClock_new d n None))
    by (split; [reflexivity | split; [reflexivity | exact I]]).
  destruct (sleeps_pay_for_expiries t Ht sched _ s Hrun I) as [I' B].
  pose proof (sleeps_in_call_nonneg t s I') as P.
  cbn [AlarmClock_new pcW sleeps_in_call] in B. lia.
Qed.

(** A 3-microsecond timer: one expiry, two sleeps. *)
Lemma expiries_need_sleeps_example :
  count_steps is_expiry
    (repeat L_Worker 10) (AlarmClock_new microseconds 3 None) = 1%nat
  /\ (2 * 1 <= Z.of_nat (count_steps is_sleep (repeat L_Worker 10)
                           (AlarmClock_new microseconds 3 None))).
Proof.
  split; [vm_compute; reflexivity |].
  pose proof (expiries_need_sleeps microseconds 3 (repeat L_Worker 10)
                (after (repeat L_Worker 10)
                   (AlarmClock_new microseconds 3 None))
                ltac:(vm_compute; discriminate)
                ltac:(vm_compute; reflexivity)) as H.
  replace (count_steps is_expiry (repeat L_Worker 10)
             (AlarmClock_new microseconds 3 None)) with 1%nat in H
    by (vm_compute; reflexivity).
  exact H.
Defined.

(** ** The join that does not return *)

(** C8.  The guard of line 103 lets the destructor call [join] when the
    thread is joinable and [mExit] is [true], but calling [join] is not
    joining: the worker is joined only if it returns, and nothing in the
    destructor wakes a parked worker.  Take any state a constructed object
    can reach with the worker parked at line 92 and the owner idle.  The
    destructor passes the guard and calls [join] with [mExit] [true] and the
    thread joinable; and however the threads are scheduled from there, as
    long as the wait does not wake by itself, in every later state the
    thread is still joinable, the worker has not returned and the destructor
    has not returned, although exit has been requested. *)
Theorem thread_left_unjoined_when_worker_parked
    (d : Duration) (n : Z) (f : option (nat -> Z -> Z))
    (pre : list Label) (s : Sys) :
  run pre (AlarmClock_new d n f) = Some s ->
  pcO s = O_Idle ->
  pcW s = W_Waiting ->
  (exists s1,
      run destroy_until_join s = Some s1
      /\ pcO s1 = O_Join
      /\ mExit (obj s1) = true
      /\ joinable (obj s1) = true
      /\ pcW s1 = W_Waiting)
  /\ (forall sched s',
      forallb (fun l => negb (is_spurious l)) sched = true ->
      run (L_Call CallDestroy :: sched) s = Some s' ->
      joinable (obj s') = true
      /\ pcW s' <> W_Done
      /\ pcO s' <> O_Destroyed
      /\ (pcO s' <> O_DtorSetExit -> mExit (obj s') = true)).
Proof.
  intros Hpre Ho Hw.
  destruct (reachable_inv d n f pre s Hpre) as [_ [_ [Tj _]]].
  assert (Hj : joinable (obj s) = true) by (rewrite Tj, Ho; reflexivity).
  split.
  - destruct s as [[me ms mx mr k1 k2 k3 sf j mm] pw po c].
    cbn in Ho, Hw, Hj. subst po pw j.
    eexists. split; [reflexivity |]. repeat split.
  - intros sched s' C Hrun.
    assert (R : run (pre ++ L_Call CallDestroy :: sched)
                  (AlarmClock_new d n f) = Some s')
      by (rewrite run_app, Hpre; exact Hrun).
    destruct (reachable_inv d n f _ s' R) as [_ [Tx _]].
    simpl in Hrun. rewrite Ho in Hrun.
    assert (I : stuck_inv (goO O_DtorSetExit s)).
    { split; [exact Hw |]. split; [exact Hj |]. left. reflexivity. }
    destruct (destructor_blocks_when_parked sched _ s' C I Hrun)
      as [Hw' [Hj' Ho']].
    split; [exact Hj' |]. split; [rewrite Hw'; discriminate |].
    split.
    + destruct Ho' as [Ho' | [[Ho' _] | Ho']]; rewrite Ho'; discriminate.
    + intros N. rewrite Tx.
      destruct Ho' as [Ho' | [[Ho' _] | Ho']]; rewrite Ho';
        [congruence | reflexivity | reflexivity].
Qed.

(** An object with a zero duration, destroyed after it has expired: the
    destructor is in [join], exit is requested, and the thread stays
    joinable through any further steps. *)
Lemma thread_left_unjoined_after_expiry :
  pcO (after (until_parked ++ destroy_until_join)
         (AlarmClock_new microseconds 0 None)) = O_Join
  /\ mExit (obj (after (until_parked ++ destroy_until_join)
                   (AlarmClock_new microseconds 0 None))) = true
  /\ joinable (obj (after (until_parked ++ destroy_until_join
                          ++ [L_Call CallExpired; L_Call CallSleptTime])
                      (AlarmClock_new microseconds 0 None))) = true.
Proof.
  split; [vm_compute; reflexivity |]. split; [vm_compute; reflexivity |].
  refine (proj1 (proj2 (thread_left_unjoined_when_worker_parked
            microseconds 0 None until_parked
            (after until_parked (AlarmClock_new microseconds 0 None))
            _ _ _)
            [L_Owner; L_Owner; L_Call CallExpired; L_Call CallSleptTime]
            (after (until_parked ++ destroy_until_join
                    ++ [L_Call CallExpired; L_Call CallSleptTime])
               (AlarmClock_new microseconds 0 None))
            _ _)); vm_compute; reflexivity.
Defined.
